(** * farmwise-crop: the Gemini proxy route and the community feed

    A shallow embedding of

    - [app/api/gemini/route.ts]   (the summarization proxy, [POST]);
    - [components/CommunityFeed.tsx] (the feed component: [summarizeWithGemini],
      [getAIAdvice], [speakWithElevenLabs], [handleSubmit]).

    Asynchronous functions are programs of a small free monad [prog]: a
    program issues calls to the outside ([fetch], the clock, the media
    layer), performs effects (React state setters, console output) and
    returns or throws.  [run] executes a program against a [world] that
    answers the calls, and yields the trace of what happened together with
    the way the program ended. *)

From Stdlib Require Import ZArith NArith QArith Ascii String List.
From Stdlib Require Import DecimalString DecimalZ.
From stdpp Require Import base option list gmap.

Set Warnings "-register-all".
Local Open Scope Z_scope.

(** ** JavaScript strings

    A JavaScript string is a sequence of UTF-16 code units; [length] and
    [substring] count code units. *)

Definition jsstring : Type := list N.

(** A string literal of the source (all of them are ASCII). *)
Definition lit (s : string) : jsstring :=
  List.map N_of_ascii (list_ascii_of_string s).

Definition jsstring_eqb (a b : jsstring) : bool := bool_decide (a = b).

(** [s.substring(0, n)] for [0 <= n]: the first [n] code units, the whole
    string when it is shorter. *)
Definition substring0 (n : nat) (s : jsstring) : jsstring := take n s.

(** WhiteSpace and LineTerminator code units of ECMAScript, the ones
    [String.prototype.trim] strips. *)
Definition is_js_space (c : N) : bool :=
  match c with
  | 9%N | 10%N | 11%N | 12%N | 13%N | 32%N | 160%N
  | 5760%N
  | 8192%N | 8193%N | 8194%N | 8195%N | 8196%N | 8197%N
  | 8198%N | 8199%N | 8200%N | 8201%N | 8202%N
  | 8232%N | 8233%N | 8239%N | 8287%N | 12288%N | 65279%N => true
  | _ => false
  end.

Fixpoint trimStart (s : jsstring) : jsstring :=
  match s with
  | c :: s' => if is_js_space c then trimStart s' else s
  | [] => []
  end.

Definition trimEnd (s : jsstring) : jsstring := rev (trimStart (rev s)).

Definition trim (s : jsstring) : jsstring := trimEnd (trimStart s).

(** [Number.prototype.toString] on an integer of plain decimal notation
    (every integer below 10^21 in magnitude, so every clock reading). *)
Definition Number_toString (z : Z) : jsstring :=
  lit (NilEmpty.string_of_int (Z.to_int z)).

(** ** JavaScript values

    What [JSON.parse] can produce, and [undefined]. Numbers are the
    rationals (every finite double is one). An object is the list of its
    own properties in insertion order, keys distinct. *)

Inductive jsval : Type :=
| VUndefined
| VNull
| VBool (b : bool)
| VNum (q : Q)
| VStr (s : jsstring)
| VArr (items : list jsval)
| VObj (props : list (jsstring * jsval)).

(** ToBoolean. *)
Definition truthy (v : jsval) : bool :=
  match v with
  | VUndefined | VNull => false
  | VBool b => b
  | VNum q => negb (Qnum q =? 0)
  | VStr s => negb (bool_decide (s = []))
  | VArr _ | VObj _ => true
  end.

(** [a || b]. *)
Definition js_or (a b : jsval) : jsval := if truthy a then a else b.

Fixpoint own_prop (key : jsstring) (props : list (jsstring * jsval)) : jsval :=
  match props with
  | [] => VUndefined
  | (k, v) :: rest => if jsstring_eqb k key then v else own_prop key rest
  end.

(** Errors that are thrown: a constructor name and the message. For
    [new Error(m)] the record keeps [m] as it is passed. *)
Record exn : Type := Exn { exn_name : jsstring; exn_message : jsval }.

Definition TypeError (msg : string) : exn := Exn (lit "TypeError") (VStr (lit msg)).
Definition SyntaxError (msg : string) : exn := Exn (lit "SyntaxError") (VStr (lit msg)).
Definition Error (msg : jsval) : exn := Exn (lit "Error") msg.

(** [v.key] for a key that is no built-in property of strings, arrays,
    numbers or booleans ([text], [summary], [error], [final_output]):
    reading it off [null] or [undefined] throws, off an object it gives the
    property, off anything else [undefined]. *)
Definition get_prop (v : jsval) (key : string) : exn + jsval :=
  match v with
  | VUndefined | VNull => inl (TypeError "Cannot read properties of null or undefined")
  | VObj props => inr (own_prop (lit key) props)
  | _ => inr VUndefined
  end.

(** ** The outside world: HTTP, clock, media *)

Record request : Type := Request {
  url : jsstring;
  method : jsstring;
  headers : list (jsstring * jsstring);
  body : jsval                (* the value handed to [JSON.stringify] *)
}.

Definition blob : Type := list N.

Record response : Type := Response {
  status : Z;
  json_body : option jsval;   (* [None]: the body is not JSON, [json()] rejects *)
  blob_body : blob
}.

(** [response.ok] *)
Definition ok (r : response) : bool := (200 <=? status r) && (status r <=? 299).

(** ** Posts and the effects of the component *)

Inductive post_type : Type := update | advice | soil | crop | question.

Definition post_type_eqb (a b : post_type) : bool :=
  match a, b with
  | update, update | advice, advice | soil, soil | crop, crop
  | question, question => true
  | _, _ => false
  end.

Record Post : Type := mkPost {
  id : jsstring;
  author : jsstring;
  content : jsstring;
  summary : option jsval;     (* [None]: the property is absent *)
  timestamp : Z;              (* a [Date], in milliseconds *)
  type : post_type
}.

(** What a function does besides calling out: the React state setters of
    [CommunityFeed], console output, and the media objects it creates and
    the event handlers it installs on them (a handler body is the list of
    effects it performs). *)
Inductive effect : Type :=
| PreventDefault
| SetLoading (b : bool)
| SetNewPost (s : jsstring)
| SetSummarizing (p : option jsstring)
| SetPlayingAudio (p : option jsstring)
| PrependPost (p : Post)                       (* setPosts(prev => [post, ...prev]) *)
| PatchSummary (postId : jsstring) (v : jsval) (* setPosts(prev => prev.map(...)) *)
| ConsoleLog (args : list jsval)
| ConsoleError (label : jsstring) (e : exn)
| RevokeObjectURL (u : jsstring)
| NewAudio (src : jsstring)
| AudioOnEnded (handler : list effect)
| AudioOnError (handler : list effect)
| NewUtterance (text : jsval)
| Speak (text : jsval)
| UtteranceOnEnd (handler : list effect).

(** Calls whose answer comes from outside, indexed by the type of the
    answer. *)
Inductive call : Type -> Type :=
| Fetch (r : request) : call (exn + response)     (* await fetch(url, init) *)
| DateNow : call Z                                (* Date.now() *)
| NewDate : call Z                                (* new Date() *)
| SpeechSynthesis : call bool                     (* window.speechSynthesis is there *)
| CreateObjectURL (b : blob) : call jsstring      (* URL.createObjectURL(blob) *)
| AudioPlay (src : jsstring) : call (option exn). (* await audio.play() *)

(** ** Programs *)

Inductive prog (A : Type) : Type :=
| Ret (a : A)
| Throw (e : exn)
| Call {X : Type} (c : call X) (k : X -> prog A)
| Do (e : effect) (k : prog A).

Arguments Ret {A} a.
Arguments Throw {A} e.
Arguments Call {A X} c k.
Arguments Do {A} e k.

Fixpoint bind {A B : Type} (p : prog A) (f : A -> prog B) : prog B :=
  match p with
  | Ret a => f a
  | Throw e => Throw e
  | Call c k => Call c (fun x => bind (k x) f)
  | Do e k => Do e (bind k f)
  end.

#[global] Instance prog_ret : MRet prog := @Ret.
#[global] Instance prog_bind : MBind prog := fun A B f p => bind p f.

(** [try { p } catch (e) { h e }] *)
Fixpoint try_catch {A : Type} (p : prog A) (h : exn -> prog A) : prog A :=
  match p with
  | Ret a => Ret a
  | Throw e => h e
  | Call c k => Call c (fun x => try_catch (k x) h)
  | Do e k => Do e (try_catch k h)
  end.

(** [try { p } finally { c }] *)
Fixpoint finally {A : Type} (p : prog A) (c : prog unit) : prog A :=
  match p with
  | Ret a => bind c (fun _ => Ret a)
  | Throw e => bind c (fun _ => Throw e)
  | Call q k => Call q (fun x => finally (k x) c)
  | Do e k => Do e (finally k c)
  end.

Definition perform (e : effect) : prog unit := Do e (Ret tt).

Definition ask {X : Type} (c : call X) : prog X := Call c Ret.

(** [await fetch(...)]: the response, or the rejection thrown. *)
Definition fetch (r : request) : prog response :=
  Call (Fetch r) (fun x => match x with inl e => Throw e | inr resp => Ret resp end).

(** [await response.json()] *)
Definition json (r : response) : prog jsval :=
  match json_body r with
  | Some v => Ret v
  | None => Throw (SyntaxError "Unexpected token in JSON")
  end.

(** [v.key] inside a program. *)
Definition prop (v : jsval) (key : string) : prog jsval :=
  match get_prop v key with
  | inl e => Throw e
  | inr x => Ret x
  end.

(** ** Running a program *)

Record world : Type := World {
  net : request -> option (exn + response);  (* [None]: the call never settles *)
  date_now : Z;
  new_date : Z;
  speech_synthesis : bool;
  object_url : blob -> jsstring;
  audio_play : jsstring -> option exn        (* [None]: playback has started *)
}.

Definition answer (w : world) {X : Type} (c : call X) : option X :=
  match c in call T return option T with
  | Fetch r => net w r
  | DateNow => Some (date_now w)
  | NewDate => Some (new_date w)
  | SpeechSynthesis => Some (speech_synthesis w)
  | CreateObjectURL b => Some (object_url w b)
  | AudioPlay src => Some (audio_play w src)
  end.

Inductive event : Type :=
| EvFetch (r : request)                        (* the call is issued *)
| EvSettled (r : request) (x : exn + response) (* it settles, the caller resumes *)
| EvPlay (src : jsstring) (x : option exn)     (* audio.play() settles *)
| EvDo (e : effect).

Definition issued {X : Type} (c : call X) : list event :=
  match c with
  | Fetch r => [EvFetch r]
  | _ => []
  end.

Definition answered {X : Type} (c : call X) : X -> list event :=
  match c in call T return T -> list event with
  | Fetch r => fun x => [EvSettled r x]
  | AudioPlay src => fun x => [EvPlay src x]
  | _ => fun _ => []
  end.

Inductive ending (A : Type) : Type :=
| Returned (a : A)
| Thrown (e : exn)
| Pending.                     (* suspended at an await that never settles *)

Arguments Returned {A} a.
Arguments Thrown {A} e.
Arguments Pending {A}.

Fixpoint run {A : Type} (w : world) (p : prog A) : list event * ending A :=
  match p with
  | Ret a => ([], Returned a)
  | Throw e => ([], Thrown e)
  | Do e k => let '(t, r) := run w k in (EvDo e :: t, r)
  | Call c k =>
      match answer w c with
      | None => (issued c, Pending)
      | Some x => let '(t, r) := run w (k x) in (issued c ++ answered c x ++ t, r)
      end
  end.

Definition trace {A : Type} (w : world) (p : prog A) : list event := fst (run w p).
Definition result {A : Type} (w : world) (p : prog A) : ending A := snd (run w p).

(** ** app/api/gemini/route.ts *)

Module Route.

(** A template literal's [${v}] for a string, or for [undefined]. *)
Definition interpolate (v : option jsstring) : jsstring :=
  default (lit "undefined") v.

(** A [NextResponse]. *)
Record reply : Type := Reply { reply_status : Z; reply_body : jsval }.

(** [NextResponse.json(v)]: no init is given, so status 200. *)
Definition NextResponse_json (v : jsval) : reply := Reply 200 v.

(** The [url] of line 5, [process.env] being [env]. *)
Definition provider_url (env : gmap jsstring jsstring) : jsstring :=
  lit "https://generativelanguage.googleapis.com/v1beta/models/gemini-pro:generateContent?key="
    ++ interpolate (env !! lit "GEMINI_API_KEY").

Definition provider_request (env : gmap jsstring jsstring) (text : jsval) : request :=
  {| url := provider_url env;
     method := lit "POST";
     headers := [(lit "Content-Type", lit "application/json")];
     body := VObj [(lit "contents",
                    VArr [VObj [(lit "parts", VArr [VObj [(lit "text", text)]])]])] |}.

(** [POST(request)], with [process.env] and the incoming request's body as
    [request.json()] parses it ([None]: it does not parse). The second
    [console.log] prints the payload through [JSON.stringify]; the trace
    keeps the payload itself. *)
Definition POST (env : gmap jsstring jsstring) (request_body : option jsval)
  : prog reply :=
  parsed ← match request_body with
           | Some v => Ret v
           | None => Throw (SyntaxError "Unexpected end of JSON input")
           end;
  text ← prop parsed "text";
  completion ← fetch (provider_request env text);
  result ← json completion;
  perform (ConsoleLog [VStr (lit "[THIS IS THE TRUE GEMINI ROUTE]")]);;
  perform (ConsoleLog [VStr (lit "[GEMINI RAW RESULT]"); result]);;
  Ret (NextResponse_json result).

End Route.

(** ** components/CommunityFeed.tsx *)

Module Feed.

Definition json_headers : list (jsstring * jsstring) :=
  [(lit "Content-Type", lit "application/json")].

Definition gemini_request (text : jsstring) : request :=
  {| url := lit "/api/gemini"; method := lit "POST"; headers := json_headers;
     body := VObj [(lit "text", VStr text)] |}.

(** The fallback of line 44. *)
Definition truncate (text : jsstring) : jsstring :=
  if (100 <? length text)%nat then substring0 100 text ++ lit "..." else text.

Definition summarizeWithGemini (text : jsstring) : prog jsval :=
  try_catch
    (response ← fetch (gemini_request text);
     if negb (ok response) then
       errorData ← json response;
       message ← prop errorData "error";
       Throw (Error (js_or message (VStr (lit "Failed to summarize"))))
     else
       data ← json response;
       s ← prop data "summary";
       Ret (js_or s (VStr (lit "Unable to generate summary"))))
    (fun error =>
       perform (ConsoleError (lit "Gemini API error:") error);;
       Ret (VStr (truncate text))).

Definition dedalus_request (input : jsstring) : request :=
  {| url := lit "/api/dedalus"; method := lit "POST"; headers := json_headers;
     body := VObj [(lit "input", VStr input);
                   (lit "model", VStr (lit "openai/gpt-5-mini"))] |}.

Definition getAIAdvice (input : jsstring) : prog jsval :=
  try_catch
    (response ← fetch (dedalus_request input);
     if negb (ok response) then
       Throw (Error (VStr (lit "Failed to get AI advice")))
     else
       data ← json response;
       final_output ← prop data "final_output";
       text ← prop data "text";
       Ret (js_or (js_or final_output text) (VStr (lit "Unable to generate advice"))))
    (fun error =>
       perform (ConsoleError (lit "Dedalus API error:") error);;
       Ret (VStr (lit "AI advice temporarily unavailable"))).

Definition tts_request (text : jsval) : request :=
  {| url := lit "/api/elevenlabs-tts"; method := lit "POST"; headers := json_headers;
     body := VObj [(lit "text", text);
                   (lit "voice_id", VStr (lit "21m00Tcm4TlvDq8ikWAM"))] |}.

(** Lines 93-95 and 119-121: speak on the device, clear the flag at the end. *)
Definition speak_locally (text : jsval) : prog unit :=
  perform (NewUtterance text);;
  perform (Speak text);;
  perform (UtteranceOnEnd [SetPlayingAudio None]).

(** [text] is whatever the Listen button passes. [await response.blob()]
    yields the bytes of the body. *)
Definition speakWithElevenLabs (text : jsval) (postId : jsstring) : prog unit :=
  perform (SetPlayingAudio (Some postId));;
  try_catch
    (response ← fetch (tts_request text);
     if negb (ok response) then
       errorData ← json response;
       available ← ask SpeechSynthesis;
       if available : bool then speak_locally text else Ret tt
     else
       audioUrl ← ask (CreateObjectURL (blob_body response));
       perform (NewAudio audioUrl);;
       perform (AudioOnEnded [RevokeObjectURL audioUrl; SetPlayingAudio None]);;
       perform (AudioOnError [SetPlayingAudio None]);;
       played ← ask (AudioPlay audioUrl);
       match played with
       | Some e => Throw e
       | None => Ret tt
       end)
    (fun error =>
       perform (ConsoleError (lit "ElevenLabs API error:") error);;
       available ← ask SpeechSynthesis;
       if available : bool then speak_locally text
       else perform (SetPlayingAudio None)).

(** The state of the component (its six [useState] cells). *)
Record state : Type := State {
  posts : list Post;
  newPost : jsstring;
  postType : post_type;
  loading : bool;
  summarizing : option jsstring;
  playingAudio : option jsstring
}.

(** [handleSubmit], a closure over the state [s] of the render it belongs
    to: it reads [newPost] and [postType] from there. *)
Definition handleSubmit (s : state) : prog unit :=
  perform PreventDefault;;
  if bool_decide (trim (newPost s) = []) then Ret tt
  else
    perform (SetLoading true);;
    now ← ask DateNow;
    let postId := Number_toString now in
    created ← ask NewDate;
    let post := {| id := postId; author := lit "You"; content := newPost s;
                   summary := None; timestamp := created; type := postType s |} in
    perform (PrependPost post);;
    perform (SetNewPost []);;
    perform (SetLoading false);;
    perform (SetSummarizing (Some postId));;
    finally
      (try_catch
         (summary ← summarizeWithGemini (newPost s);
          perform (PatchSummary postId summary))
         (fun error => perform (ConsoleError (lit "Failed to generate summary:") error)))
      (perform (SetSummarizing None));;
    if post_type_eqb (postType s) question then
      try_catch
        (advice ← getAIAdvice (newPost s);
         perform (PatchSummary postId advice))
        (fun error => perform (ConsoleError (lit "Failed to get AI advice:") error))
    else Ret tt.

(** The Listen button of a post (lines 282-285). *)
Definition listen (p : Post) : prog unit :=
  let textToSpeak := js_or (default VUndefined (summary p)) (VStr (content p)) in
  speakWithElevenLabs textToSpeak (id p).

(** *** The state updates *)

(** [{ ...p, summary: v }] *)
Definition with_summary (p : Post) (v : jsval) : Post :=
  {| id := id p; author := author p; content := content p;
     summary := Some v; timestamp := timestamp p; type := type p |}.

(** [prev.map(p => p.id === postId ? { ...p, summary: v } : p)] *)
Definition patch_summary (postId : jsstring) (v : jsval) (prev : list Post)
  : list Post :=
  List.map (fun p => if jsstring_eqb (id p) postId then with_summary p v else p) prev.

Definition apply_effect (e : effect) (s : state) : state :=
  match e with
  | SetLoading b =>
      State (posts s) (newPost s) (postType s) b (summarizing s) (playingAudio s)
  | SetNewPost t =>
      State (posts s) t (postType s) (loading s) (summarizing s) (playingAudio s)
  | SetSummarizing p =>
      State (posts s) (newPost s) (postType s) (loading s) p (playingAudio s)
  | SetPlayingAudio p =>
      State (posts s) (newPost s) (postType s) (loading s) (summarizing s) p
  | PrependPost p =>
      State (p :: posts s) (newPost s) (postType s) (loading s) (summarizing s)
            (playingAudio s)
  | PatchSummary postId v =>
      State (patch_summary postId v (posts s)) (newPost s) (postType s) (loading s)
            (summarizing s) (playingAudio s)
  | _ => s
  end.

Definition apply_event (s : state) (ev : event) : state :=
  match ev with
  | EvDo e => apply_effect e s
  | _ => s
  end.

(** The state once everything in the trace has happened. *)
Definition state_after (t : list event) (s : state) : state :=
  fold_left apply_event t s.

End Feed.


(** ** Notions used to state the properties *)

(** The world [w] with its network replaced. *)
Definition with_net (n : request -> option (exn + response)) (w : world) : world :=
  {| net := n; date_now := date_now w; new_date := new_date w;
     speech_synthesis := speech_synthesis w; object_url := object_url w;
     audio_play := audio_play w |}.

(** The outcomes of a proxy call on which [summarizeWithGemini] and
    [getAIAdvice] end up in their [catch]: the call is rejected, the status
    is not a success, or the body of a success is not JSON or is [null]. *)
Definition proxy_failed (x : exn + response) : bool :=
  match x with
  | inl _ => true
  | inr resp =>
      negb (ok resp) ||
      match json_body resp with
      | None | Some VNull | Some VUndefined => true
      | Some _ => false
      end
  end.

(** The property [key] of the body of a response, [undefined] where there
    is none. *)
Definition body_prop (key : string) (x : exn + response) : jsval :=
  match x with
  | inr resp =>
      match json_body resp with
      | Some (VObj props) => own_prop (lit key) props
      | _ => VUndefined
      end
  | inl _ => VUndefined
  end.

(** A value that is a string whenever it is truthy: what a field declared
    [string], possibly absent or empty, holds. *)
Definition string_if_truthy (v : jsval) : bool :=
  match v with
  | VStr _ => true
  | _ => negb (truthy v)
  end.

Definition nonempty_string (v : jsval) : Prop :=
  exists s : jsstring, v = VStr s /\ s <> [].

Definition is_console_error (ev : event) : bool :=
  match ev with
  | EvDo (ConsoleError _ _) => true
  | _ => false
  end.

(** *** Sample inputs *)

(** A browser with speech synthesis whose network calls never settle, at
    clock reading 1700000000000; the samples below replace its network. *)
Definition sample_world : world :=
  {| net := fun _ => None; date_now := 1700000000000; new_date := 1700000000001;
     speech_synthesis := true; object_url := fun _ => lit "blob:sample";
     audio_play := fun _ => None |}.

(** Every call settles with the response [resp]. *)
Definition answering (resp : response) : world :=
  with_net (fun _ => Some (inr resp)) sample_world.

(** Every call is rejected with the error [e]. *)
Definition rejecting (e : exn) : world :=
  with_net (fun _ => Some (inl e)) sample_world.

Definition network_error : exn := TypeError "Failed to fetch".

Definition json_response (st : Z) (v : jsval) : response :=
  {| status := st; json_body := Some v; blob_body := [] |}.

(** What C5 says of the value [v] that [getAIAdvice] resolves to when the
    proxy call settled with [x]: a non-empty string, the [final_output] of
    the response or one of the two canned strings. *)
Definition advice_contract (x : exn + response) (v : jsval) : Prop :=
  nonempty_string v /\
  (v = body_prop "final_output" x \/
   v = VStr (lit "Unable to generate advice") \/
   v = VStr (lit "AI advice temporarily unavailable")).

(** A request body [{ "text": text }]. *)
Definition text_body (text : jsstring) : option jsval :=
  Some (VObj [(lit "text", VStr text)]).

(** A provider payload of the shape the Gemini API answers with:
    [{ "candidates": [ { "content": { "parts": [ { "text": "Short." } ] } } ] }]. *)
Definition sample_payload : jsval :=
  VObj [(lit "candidates",
         VArr [VObj [(lit "content",
                      VObj [(lit "parts",
                             VArr [VObj [(lit "text", VStr (lit "Short."))]])])]])].

(** *** Submitting a post *)

(** The post that [handleSubmit] creates in the world [w]. *)
Definition new_post (w : world) (s : Feed.state) : Post :=
  {| id := Number_toString (date_now w); author := lit "You";
     content := Feed.newPost s; summary := None; timestamp := new_date w;
     type := Feed.postType s |}.

(** What [handleSubmit] does before its first [await]. *)
Definition submit_prefix (w : world) (s : Feed.state) : list event :=
  [EvDo PreventDefault; EvDo (SetLoading true); EvDo (PrependPost (new_post w s));
   EvDo (SetNewPost []); EvDo (SetLoading false);
   EvDo (SetSummarizing (Some (Number_toString (date_now w))))].

(** The part of [handleSubmit] after the summary: the advice, for a
    question. *)
Definition advice_step (s : Feed.state) (postId : jsstring) : prog unit :=
  if post_type_eqb (Feed.postType s) question then
    try_catch
      (advice ← Feed.getAIAdvice (Feed.newPost s);
       perform (PatchSummary postId advice))
      (fun error => perform (ConsoleError (lit "Failed to get AI advice:") error))
  else Ret tt.

(** C4 as the specification has it: the advice call is issued after the
    summarization call, and while that call has not settled. *)
Definition issued_without_waiting (w : world) (s : Feed.state) : Prop :=
  exists t1 t2 : list event,
    trace w (Feed.handleSubmit s) =
      t1 ++ EvFetch (Feed.dedalus_request (Feed.newPost s)) :: t2 /\
    In (EvFetch (Feed.gemini_request (Feed.newPost s))) t1 /\
    forall x, ~ In (EvSettled (Feed.gemini_request (Feed.newPost s)) x) t1.

(** The render in which the user has typed a question. *)
Definition asking (text : string) : Feed.state :=
  {| Feed.posts := []; Feed.newPost := lit text; Feed.postType := question;
     Feed.loading := false; Feed.summarizing := None; Feed.playingAudio := None |}.

(** *** Listening to a post *)

(** The handler that the trace leaves installed in a slot, [pick] telling
    which effects install one there (the last installed one counts; no
    handler does nothing). *)
Definition installed (pick : effect -> option (list effect)) (t : list event)
  : list effect :=
  default [] (last (omap (fun ev => match ev with
                                    | EvDo e => pick e
                                    | _ => None
                                    end) t)).

Definition audio_onended : list event -> list effect :=
  installed (fun e => match e with AudioOnEnded h => Some h | _ => None end).

Definition audio_onerror : list event -> list effect :=
  installed (fun e => match e with AudioOnError h => Some h | _ => None end).

Definition utterance_onend : list event -> list effect :=
  installed (fun e => match e with UtteranceOnEnd h => Some h | _ => None end).

(** The audio element has started to play: [audio.play()] resolved. *)
Definition remote_playback (t : list event) : bool :=
  existsb (fun ev => match ev with EvPlay _ None => true | _ => false end) t.

(** The device has been asked to speak. *)
Definition local_playback (t : list event) : bool :=
  existsb (fun ev => match ev with EvDo (Speak _) => true | _ => false end) t.

Definition apply_effects (es : list effect) (s : Feed.state) : Feed.state :=
  fold_left (fun s' e => Feed.apply_effect e s') es s.

(** What runs when the playbacks started in [t] end: the [ended] event of
    the audio element, the [end] event of the utterance. *)
Definition when_playback_ends (t : list event) : list effect :=
  (if remote_playback t then audio_onended t else []) ++
  (if local_playback t then utterance_onend t else []).

(** The flag once [t] has happened and its playbacks have ended. *)
Definition flag_after_playback (t : list event) (s : Feed.state) : option jsstring :=
  Feed.playingAudio (apply_effects (when_playback_ends t) (Feed.state_after t s)).





(** [sample_world] in a browser without speech synthesis. *)
Definition without_speech (w : world) : world :=
  {| net := net w; date_now := date_now w; new_date := new_date w;
     speech_synthesis := false; object_url := object_url w;
     audio_play := audio_play w |}.

(** A post of the feed, and the feed showing it. *)
Definition sample_post : Post :=
  {| id := lit "1700000000000"; author := lit "You"; content := lit "Rain at last";
     summary := None; timestamp := 1700000000001; type := update |}.

Definition showing (p : Post) : Feed.state :=
  {| Feed.posts := [p]; Feed.newPost := []; Feed.postType := update;
     Feed.loading := false; Feed.summarizing := None; Feed.playingAudio := None |}.

(** The speech proxy's answer when it has no credential. *)
Definition no_credential : response :=
  json_response 500 (VObj [(lit "success", VBool false);
                           (lit "error", VStr (lit "ElevenLabs API key not configured"))]).

(** An answer of the speech proxy that carries audio. *)
Definition audio_response : response :=
  {| status := 200; json_body := None; blob_body := [73; 68; 51]%N |}.

(** *** A session *)

(** The component as it mounts. *)
Definition initial : Feed.state :=
  {| Feed.posts := []; Feed.newPost := []; Feed.postType := update;
     Feed.loading := false; Feed.summarizing := None; Feed.playingAudio := None |}.

(** A submission: the render whose [handleSubmit] runs, and the world it
    runs in. *)
Definition submission : Type := Feed.state * world.

Definition submission_trace (sub : submission) : list event :=
  trace (snd sub) (Feed.handleSubmit (fst sub)).

(** The guard of line 130 lets the submission through. *)
Definition accepted (sub : submission) : bool :=
  negb (bool_decide (trim (Feed.newPost (fst sub)) = [])).

(** The readings of [Date.now()] at the accepted submissions. *)
Definition clock_readings (subs : list submission) : list Z :=
  List.map (fun sub => date_now (snd sub)) (List.filter accepted subs).

(** The posts that a trace inserts, in the order of insertion. *)
Definition inserted (t : list event) : list Post :=
  omap (fun ev => match ev with
                  | EvDo (PrependPost p) => Some p
                  | _ => None
                  end) t.

(** [interleaving ts t]: up to some moment, the handlers whose traces are
    [ts] have run interleaved as [t]; each has got through a prefix of its
    trace. The setters of React take effect in the order of [t]. *)
Inductive interleaving : list (list event) -> list event -> Prop :=
| interleaving_nil (ts : list (list event)) : interleaving ts []
| interleaving_cons (ts : list (list event)) (i : nat) (ev : event)
    (rest t : list event) :
    ts !! i = Some (ev :: rest) ->
    interleaving (<[i := rest]> ts) t ->
    interleaving ts (ev :: t).

Definition post_ids (s : Feed.state) : list jsstring := List.map id (Feed.posts s).

(** The user who types "Rain at last" as an update. *)
Definition typing (text : string) : Feed.state :=
  {| Feed.posts := []; Feed.newPost := lit text; Feed.postType := update;
     Feed.loading := false; Feed.summarizing := None; Feed.playingAudio := None |}.

(** The world [w] at another reading of the clock. *)
Definition at_time (now : Z) (w : world) : world :=
  {| net := net w; date_now := now; new_date := now;
     speech_synthesis := speech_synthesis w; object_url := object_url w;
     audio_play := audio_play w |}.

(** ** Further notions *)

(** The calls that a trace issues, in order. *)
Definition fetches (t : list event) : list request :=
  omap (fun ev => match ev with
                  | EvFetch r => Some r
                  | _ => None
                  end) t.

(** The reply of the route as the client's [fetch] receives it:
    [NextResponse.json] writes the body as JSON, [response.json()] reads it
    back. *)
Definition over_http (r : Route.reply) : response :=
  {| status := Route.reply_status r; json_body := Some (Route.reply_body r);
     blob_body := [] |}.

(** The network of the browser hands [/api/gemini] to the route of this
    repository, which runs with the environment [env] against the provider
    world [provider]: whenever the route returns a reply to a request, that
    reply is what the caller's [fetch] settles with. *)
Definition served_by_route (env : gmap jsstring jsstring) (provider w : world) : Prop :=
  forall (r : request) (rep : Route.reply),
    url r = lit "/api/gemini" ->
    result provider (Route.POST env (Some (body r))) = Returned rep ->
    net w r = Some (inr (over_http rep)).

(** A sample network of that kind: every call goes to the route; where the
    route does not return, the call is left unanswered. *)
Definition handed_to_route (env : gmap jsstring jsstring) (provider : world)
  : request -> option (exn + response) :=
  fun r =>
    match result provider (Route.POST env (Some (body r))) with
    | Returned rep => Some (inr (over_http rep))
    | _ => None
    end.

(** The events of a submission that leave alone every post whose id is not
    [postId]: all but insertions, and updates of other ids. *)
Definition touches_only (postId : jsstring) (ev : event) : bool :=
  match ev with
  | EvDo (PrependPost _) => false
  | EvDo (PatchSummary i _) => jsstring_eqb i postId
  | _ => true
  end.

(** *** What a post shows where its summary goes (lines 263-278) *)

Inductive summary_cell : Type :=
| Spinner                    (* "Generating summary..." *)
| SummaryBox (v : jsval)     (* the box with [post.summary] in it *)
| NoCell.                    (* [null] *)

(** [summarizing === post.id ? ... : post.summary ? ... : null] *)
Definition summary_view (s : Feed.state) (p : Post) : summary_cell :=
  if bool_decide (Feed.summarizing s = Some (id p)) then Spinner
  else if truthy (default VUndefined (summary p))
       then SummaryBox (default VUndefined (summary p))
       else NoCell.
(** * Properties *)

Arguments lit _ : simpl never.

(** ** The embedding on small inputs *)

Example trim_strips_both_ends : trim (lit "  soil pH ") = lit "soil pH".
Proof. reflexivity. Qed.

Example trim_of_blank : trim (lit "   ") = [].
Proof. reflexivity. Qed.

Example toString_of_a_clock_reading :
  Number_toString 1700000000000 = lit "1700000000000".
Proof. reflexivity. Qed.

Example truncate_keeps_short_text : Feed.truncate (lit "Rain at last") = lit "Rain at last".
Proof. reflexivity. Qed.

Example truncate_cuts_long_text :
  Feed.truncate (concat (replicate 26 (lit "soil"))) =
  concat (replicate 25 (lit "soil")) ++ lit "...".
Proof. reflexivity. Qed.

Example empty_string_is_falsy :
  js_or (VStr []) (VStr (lit "Unable to generate summary")) =
  VStr (lit "Unable to generate summary").
Proof. reflexivity. Qed.

Example key_is_interpolated :
  Route.provider_url {[ lit "GEMINI_API_KEY" := lit "k" ]} =
  lit "https://generativelanguage.googleapis.com/v1beta/models/gemini-pro:generateContent?key=k".
Proof. vm_compute. reflexivity. Qed.

(** ** How [run] goes through the combinators *)

Section RunLemmas.
Context {A : Type} (w : world).

Lemma run_bind {B : Type} (p : prog A) (f : A -> prog B) :
  run w (bind p f) =
  match run w p with
  | (t, Returned a) => let '(t', r) := run w (f a) in (t ++ t', r)
  | (t, Thrown e) => (t, Thrown e)
  | (t, Pending) => (t, Pending)
  end.
Proof.
  induction p as [a | e | X c k IH | e k IH]; cbn.
  - destruct (run w (f a)); reflexivity.
  - reflexivity.
  - destruct (answer w c) as [x |]; [| reflexivity].
    rewrite IH. destruct (run w (k x)) as [t [a | e | ]]; cbn.
    + destruct (run w (f a)) as [t' r]. now rewrite !app_assoc.
    + reflexivity.
    + reflexivity.
  - rewrite IH. destruct (run w k) as [t [a | e' | ]]; cbn; try reflexivity.
    destruct (run w (f a)); reflexivity.
Qed.

Lemma run_try_catch (p : prog A) (h : exn -> prog A) :
  run w (try_catch p h) =
  match run w p with
  | (t, Thrown e) => let '(t', r) := run w (h e) in (t ++ t', r)
  | other => other
  end.
Proof.
  induction p as [a | e | X c k IH | e k IH]; cbn.
  - reflexivity.
  - destruct (run w (h e)); reflexivity.
  - destruct (answer w c) as [x |]; [| reflexivity].
    rewrite IH. destruct (run w (k x)) as [t [a | e | ]]; cbn; try reflexivity.
    destruct (run w (h e)) as [t' r]. now rewrite !app_assoc.
  - rewrite IH. destruct (run w k) as [t [a | e' | ]]; cbn; try reflexivity.
    destruct (run w (h e')); reflexivity.
Qed.

Lemma run_finally (p : prog A) (c : prog unit) :
  run w (finally p c) =
  match run w p with
  | (t, Returned a) =>
      let '(t', r) := run w (bind c (fun _ => Ret a)) in (t ++ t', r)
  | (t, Thrown e) =>
      let '(t', r) := run w (bind c (fun _ => Throw e)) in (t ++ t', r)
  | (t, Pending) => (t, Pending)
  end.
Proof.
  induction p as [a | e | X q k IH | e k IH]; cbn.
  - destruct (run w (bind c _)); reflexivity.
  - destruct (run w (bind c _)); reflexivity.
  - destruct (answer w q) as [x |]; [| reflexivity].
    rewrite IH. destruct (run w (k x)) as [t [a | e | ]]; cbn; try reflexivity.
    + destruct (run w (bind c _)) as [t' r]. now rewrite !app_assoc.
    + destruct (run w (bind c _)) as [t' r]. now rewrite !app_assoc.
  - rewrite IH. destruct (run w k) as [t [a | e' | ]]; cbn; try reflexivity.
    + destruct (run w (bind c _)); reflexivity.
    + destruct (run w (bind c _)); reflexivity.
Qed.
End RunLemmas.

Import Feed.

(** ** Applying a result to the post list *)

Lemma jsstring_eqb_true (a b : jsstring) : jsstring_eqb a b = true <-> a = b.
Proof. unfold jsstring_eqb. apply bool_decide_eq_true. Qed.

Lemma jsstring_eqb_false (a b : jsstring) : jsstring_eqb a b = false <-> a <> b.
Proof. unfold jsstring_eqb. apply bool_decide_eq_false. Qed.

(** C10. Applying a summary or advice result to the state (the updater of
    lines 152-154 and 165-169) keeps the list's length and order; at every
    position the post keeps its id, author, content, timestamp and type; a
    post whose id is [postId] gets the summary [v], and every other post is
    left as it was. *)
Theorem patch_summary_frame (postId : jsstring) (v : jsval) (s : state) :
  let s' := apply_effect (PatchSummary postId v) s in
  length (posts s') = length (posts s) /\
  forall (i : nat) (p : Post), posts s !! i = Some p ->
    exists p' : Post,
      posts s' !! i = Some p' /\
      id p' = id p /\ author p' = author p /\ content p' = content p /\
      timestamp p' = timestamp p /\ type p' = type p /\
      (id p = postId -> summary p' = Some v) /\
      (id p <> postId -> p' = p).
Proof.
  cbn. split.
  - unfold patch_summary. apply length_map.
  - intros i p Hp. unfold patch_summary.
    change (@List.map Post Post) with (@fmap list _ Post Post).
    rewrite list_lookup_fmap, Hp. cbn.
    destruct (jsstring_eqb (id p) postId) eqn:E.
    + exists (with_summary p v). repeat split; try reflexivity.
      intros Hne. apply jsstring_eqb_true in E. contradiction.
    + exists p. repeat split; try reflexivity.
      intros Heq. apply jsstring_eqb_false in E. contradiction.
Qed.

Lemma patch_summary_frame_witness :
  let a := mkPost (lit "1") (lit "You") (lit "rain") None 1 update in
  let b := mkPost (lit "2") (lit "You") (lit "soil?") None 2 question in
  let s := State [b; a] [] update false None None in
  exists p' : Post,
    posts (apply_effect (PatchSummary (lit "2") (VStr (lit "lime"))) s) !! 1%nat
      = Some p' /\
    p' = a.
Proof.
  intros a b s.
  destruct (proj2 (patch_summary_frame (lit "2") (VStr (lit "lime")) s) 1%nat a)
    as (p' & Hl & _ & _ & _ & _ & _ & _ & Hother).
  - reflexivity.
  - exists p'. split; [exact Hl |]. apply Hother. vm_compute. discriminate.
Defined.

(** ** The two client operations behind a post's summary *)

Lemma truncate_nonempty (text : jsstring) : text <> [] -> truncate text <> [].
Proof.
  intros Hne. unfold truncate, substring0.
  destruct (100 <? length text)%nat; [| exact Hne].
  destruct text as [| c text]; [contradiction | discriminate].
Qed.

Lemma js_or_nonempty_string (v : jsval) (s : jsstring) :
  string_if_truthy v = true -> s <> [] -> nonempty_string (js_or v (VStr s)).
Proof.
  intros Hv Hs. unfold js_or.
  destruct (truthy v) eqn:Ht; [| exists s; split; [reflexivity | exact Hs]].
  destruct v as [| | b | q | s' | l | l]; cbn in Hv, Ht; try congruence.
  - rewrite Ht in Hv. discriminate.
  - rewrite Ht in Hv. discriminate.
  - exists s'. split; [reflexivity |].
    apply negb_true_iff, bool_decide_eq_false in Ht. exact Ht.
Qed.

(** What a settled call to [/api/gemini] makes of [summarizeWithGemini]:
    it returns, having logged at most to the console. *)
Lemma summarize_settled (w : world) (text : jsstring) (x : exn + response) :
  net w (gemini_request text) = Some x ->
  exists (log : list event) (v : jsval),
    run w (summarizeWithGemini text) =
      (EvFetch (gemini_request text) :: EvSettled (gemini_request text) x :: log,
       Returned v) /\
    forallb is_console_error log = true /\
    (proxy_failed x = true -> v = VStr (truncate text)) /\
    (proxy_failed x = false ->
       v = js_or (body_prop "summary" x) (VStr (lit "Unable to generate summary"))).
Proof.
  intros Hnet. unfold summarizeWithGemini. rewrite run_try_catch.
  change (mbind ?f ?p) with (bind p f). rewrite run_bind.
  unfold fetch at 1. cbn [run answer issued answered]. rewrite Hnet.
  destruct x as [e | resp]; cbn.
  - eexists _, _. split; [reflexivity |]. repeat split; intros; congruence.
  - unfold proxy_failed, body_prop.
    destruct (ok resp); cbn; unfold json;
      destruct (json_body resp) as [[| | b | q | s | l | l] |]; cbn;
      eexists _, _; (split; [reflexivity |]); repeat split; intros; congruence.
Qed.

Lemma summarize_pending (w : world) (text : jsstring) :
  net w (gemini_request text) = None ->
  run w (summarizeWithGemini text) = ([EvFetch (gemini_request text)], Pending).
Proof.
  intros Hnet. unfold summarizeWithGemini. rewrite run_try_catch.
  change (mbind ?f ?p) with (bind p f). rewrite run_bind.
  unfold fetch at 1. cbn [run answer issued answered]. rewrite Hnet. reflexivity.
Qed.

(** C6, as amended. For every non-empty text and every way the call to
    [/api/gemini] settles in which the [summary] field of the body is a
    string whenever it is truthy, [summarizeWithGemini] issues that one
    call and returns a non-empty string. When the proxy fails (the call is
    rejected, the status is not a success, the body is not JSON or is
    [null]) that string is the local truncation: the text itself if it has
    at most 100 code units, otherwise its first 100 followed by three
    dots. Otherwise it is the [summary] field of the body if that is a
    non-empty string, and the string "Unable to generate summary" if the
    field is absent, empty or otherwise falsy. *)
Theorem summarize_never_blank (w : world) (text : jsstring) (x : exn + response) :
  text <> [] ->
  net w (gemini_request text) = Some x ->
  string_if_truthy (body_prop "summary" x) = true ->
  exists v : jsval,
    result w (summarizeWithGemini text) = Returned v /\
    nonempty_string v /\
    (proxy_failed x = true ->
     v = VStr (if (100 <? length text)%nat then take 100 text ++ lit "..." else text)) /\
    (proxy_failed x = false ->
     v = js_or (body_prop "summary" x) (VStr (lit "Unable to generate summary")) /\
     (forall s : jsstring, body_prop "summary" x = VStr s -> s <> [] -> v = VStr s) /\
     (truthy (body_prop "summary" x) = false ->
      v = VStr (lit "Unable to generate summary"))) /\
    In (EvFetch (gemini_request text)) (trace w (summarizeWithGemini text)).
Proof.
  intros Hne Hnet Hstr.
  destruct (summarize_settled w text x Hnet) as (log & v & Hrun & _ & Hfail & Hok).
  exists v. unfold result, trace. rewrite Hrun. cbn [fst snd].
  split; [reflexivity |].
  assert (Hshape : proxy_failed x = false ->
            v = js_or (body_prop "summary" x) (VStr (lit "Unable to generate summary")) /\
            (forall s : jsstring, body_prop "summary" x = VStr s -> s <> [] -> v = VStr s) /\
            (truthy (body_prop "summary" x) = false ->
             v = VStr (lit "Unable to generate summary"))).
  { intros Hpf. rewrite (Hok Hpf). split; [reflexivity |]. split.
    - intros s Hs Hs'. rewrite Hs. unfold js_or. cbn.
      now rewrite bool_decide_eq_false_2.
    - intros Hfalsy. unfold js_or. now rewrite Hfalsy. }
  destruct (proxy_failed x) eqn:Hpf.
  - split; [| split; [intros _; exact (Hfail eq_refl) | split; [intros H; discriminate |]]].
    + rewrite (Hfail eq_refl). exists (truncate text).
      split; [reflexivity | exact (truncate_nonempty text Hne)].
    + left. reflexivity.
  - split; [| split; [intros H; discriminate | split; [exact Hshape |]]].
    + rewrite (Hok eq_refl). apply js_or_nonempty_string; [exact Hstr |].
      vm_compute. discriminate.
    + left. reflexivity.
Qed.

Lemma summarize_never_blank_witness :
  exists v : jsval,
    result (answering (json_response 200 (VObj [(lit "summary", VStr (lit "Rain."))])))
           (summarizeWithGemini (lit "Rain at last")) = Returned v /\
    v = VStr (lit "Rain.").
Proof.
  destruct (summarize_never_blank
              (answering (json_response 200 (VObj [(lit "summary", VStr (lit "Rain."))])))
              (lit "Rain at last")
              (inr (json_response 200 (VObj [(lit "summary", VStr (lit "Rain."))]))))
    as (v & Hres & _ & _ & Hok & _).
  - vm_compute. discriminate.
  - reflexivity.
  - reflexivity.
  - exists v. split; [exact Hres |].
    apply (proj1 (proj2 (Hok eq_refl)) (lit "Rain.")).
    + reflexivity.
    + vm_compute. discriminate.
Defined.

(** C6 as stated fails: a success whose body is [{ "summary": true }] makes
    [summarizeWithGemini] return [true], which is no string (and which
    React renders as nothing). *)
Lemma summarize_blank_counterexample :
  lit "Rain at last" <> [] /\
  result (answering (json_response 200 (VObj [(lit "summary", VBool true)])))
         (summarizeWithGemini (lit "Rain at last")) = Returned (VBool true) /\
  ~ nonempty_string (VBool true).
Proof.
  split; [vm_compute; discriminate |].
  split; [vm_compute; reflexivity |].
  intros (s & Hs & _). discriminate.
Qed.

(** What a settled call to [/api/dedalus] makes of [getAIAdvice]. *)
Lemma advice_settled (w : world) (input : jsstring) (x : exn + response) :
  net w (dedalus_request input) = Some x ->
  exists (log : list event) (v : jsval),
    run w (getAIAdvice input) =
      (EvFetch (dedalus_request input) :: EvSettled (dedalus_request input) x :: log,
       Returned v) /\
    forallb is_console_error log = true /\
    (proxy_failed x = true -> v = VStr (lit "AI advice temporarily unavailable")) /\
    (proxy_failed x = false ->
       v = js_or (js_or (body_prop "final_output" x) (body_prop "text" x))
                 (VStr (lit "Unable to generate advice"))).
Proof.
  intros Hnet. unfold getAIAdvice. rewrite run_try_catch.
  change (mbind ?f ?p) with (bind p f). rewrite run_bind.
  unfold fetch at 1. cbn [run answer issued answered]. rewrite Hnet.
  destruct x as [e | resp]; cbn.
  - eexists _, _. split; [reflexivity |]. repeat split; intros; congruence.
  - unfold proxy_failed, body_prop.
    destruct (ok resp); cbn; unfold json;
      destruct (json_body resp) as [[| | b | q | s | l | l] |]; cbn;
      eexists _, _; (split; [reflexivity |]); repeat split; intros; congruence.
Qed.

Lemma advice_pending (w : world) (input : jsstring) :
  net w (dedalus_request input) = None ->
  run w (getAIAdvice input) = ([EvFetch (dedalus_request input)], Pending).
Proof.
  intros Hnet. unfold getAIAdvice. rewrite run_try_catch.
  change (mbind ?f ?p) with (bind p f). rewrite run_bind.
  unfold fetch at 1. cbn [run answer issued answered]. rewrite Hnet. reflexivity.
Qed.

(** C5, as amended. For every prompt and every way the call to
    [/api/dedalus] settles, [getAIAdvice] returns and never throws: the
    string "AI advice temporarily unavailable" when the proxy fails, and
    otherwise the response's [final_output] if truthy, else its [text] if
    truthy, else the string "Unable to generate advice". When the two
    fields are strings whenever truthy, the value is a non-empty string. *)
Theorem advice_never_rejects (w : world) (input : jsstring) (x : exn + response) :
  net w (dedalus_request input) = Some x ->
  exists v : jsval,
    result w (getAIAdvice input) = Returned v /\
    (proxy_failed x = true -> v = VStr (lit "AI advice temporarily unavailable")) /\
    (proxy_failed x = false ->
       v = js_or (js_or (body_prop "final_output" x) (body_prop "text" x))
                 (VStr (lit "Unable to generate advice"))) /\
    (string_if_truthy (body_prop "final_output" x) = true ->
     string_if_truthy (body_prop "text" x) = true ->
     nonempty_string v).
Proof.
  intros Hnet.
  destruct (advice_settled w input x Hnet) as (log & v & Hrun & _ & Hfail & Hok).
  exists v. unfold result. rewrite Hrun.
  repeat split; [exact Hfail | exact Hok |].
  intros Hfo Htx. destruct (proxy_failed x).
  - rewrite (Hfail eq_refl). eexists. split; [reflexivity |]. vm_compute. discriminate.
  - rewrite (Hok eq_refl). apply js_or_nonempty_string; [| vm_compute; discriminate].
    unfold js_or at 1. destruct (truthy (body_prop "final_output" x)); assumption.
Qed.

Lemma advice_never_rejects_witness :
  exists v : jsval,
    result (answering (json_response 200
                         (VObj [(lit "success", VBool true);
                                (lit "final_output", VStr (lit "Test the soil pH."))])))
           (getAIAdvice (lit "Is my soil too acidic?")) = Returned v /\
    v = VStr (lit "Test the soil pH.").
Proof.
  destruct (advice_never_rejects
              (answering (json_response 200
                            (VObj [(lit "success", VBool true);
                                   (lit "final_output", VStr (lit "Test the soil pH."))])))
              (lit "Is my soil too acidic?")
              (inr (json_response 200
                      (VObj [(lit "success", VBool true);
                             (lit "final_output", VStr (lit "Test the soil pH."))]))))
    as (v & Hres & _ & Hok & _).
  - reflexivity.
  - exists v. split; [exact Hres |]. rewrite Hok; reflexivity.
Defined.

(** C5 as stated fails: on a success whose body has no [final_output] but
    a [text], [getAIAdvice] resolves to that [text], which is neither the
    response's [final_output] nor a canned string. *)
Lemma advice_text_counterexample :
  let x := inr (json_response 200 (VObj [(lit "text", VStr (lit "Add lime."))])) in
  result (with_net (fun _ => Some x) sample_world)
         (getAIAdvice (lit "Is my soil too acidic?")) = Returned (VStr (lit "Add lime.")) /\
  ~ advice_contract x (VStr (lit "Add lime.")).
Proof.
  split; [vm_compute; reflexivity |].
  intros [_ [H | [H | H]]]; vm_compute in H; discriminate.
Qed.

(** ** The summarization proxy *)

Import Route.

Lemma own_prop_head (k : jsstring) (v : jsval) (rest : list (jsstring * jsval)) :
  own_prop k ((k, v) :: rest) = v.
Proof.
  cbn. replace (jsstring_eqb k k) with true; [reflexivity |].
  symmetry. now apply jsstring_eqb_true.
Qed.

(** The run of [POST] on a request body [{ "text": text }]: the provider
    is called, and what it answers decides the rest. *)
Lemma POST_run (env : gmap jsstring jsstring) (w : world) (text : jsstring) :
  run w (POST env (text_body text)) =
  let r := provider_request env (VStr text) in
  match net w r with
  | None => ([EvFetch r], Pending)
  | Some (inl e) => ([EvFetch r; EvSettled r (inl e)], Thrown e)
  | Some (inr resp) =>
      match json_body resp with
      | None =>
          ([EvFetch r; EvSettled r (inr resp)],
           Thrown (SyntaxError "Unexpected token in JSON"))
      | Some payload =>
          ([EvFetch r; EvSettled r (inr resp);
            EvDo (ConsoleLog [VStr (lit "[THIS IS THE TRUE GEMINI ROUTE]")]);
            EvDo (ConsoleLog [VStr (lit "[GEMINI RAW RESULT]"); payload])],
           Returned (Reply 200 payload))
      end
  end.
Proof.
  unfold POST, text_body. cbn -[own_prop]. rewrite own_prop_head.
  cbn. destruct (net w _) as [[e | resp] |]; cbn; try reflexivity.
  unfold json. destruct (json_body resp); reflexivity.
Qed.

(** C1 (the code departs from it). Whatever the text of the request, the
    status and the JSON payload of the provider's answer, [POST] replies
    with status 200 and that very payload as the body; for a payload of the
    provider's usual shape the body has no [summary] field. *)
Theorem POST_relays_payload :
  (forall (env : gmap jsstring jsstring) (text : jsstring) (st : Z) (payload : jsval),
     result (answering (json_response st payload)) (POST env (text_body text)) =
       Returned (Reply 200 payload)) /\
  get_prop sample_payload "summary" = inr VUndefined.
Proof.
  split; [| reflexivity].
  intros env text st payload. unfold result. rewrite POST_run. reflexivity.
Qed.

(** C2 (the code departs from it). With no [GEMINI_API_KEY] in the
    environment, [POST] still calls the provider, with the key
    [undefined] in the URL, and relays what it answers with status 200. *)
Theorem POST_forwards_without_key
  (env : gmap jsstring jsstring) (text : jsstring) :
  let env' := delete (lit "GEMINI_API_KEY") env in
  url (provider_request env' (VStr text)) =
    lit "https://generativelanguage.googleapis.com/v1beta/models/gemini-pro:generateContent?key=undefined" /\
  (forall w : world,
     head (trace w (POST env' (text_body text))) =
       Some (EvFetch (provider_request env' (VStr text)))) /\
  (forall (st : Z) (payload : jsval),
     result (answering (json_response st payload)) (POST env' (text_body text)) =
       Returned (Reply 200 payload)).
Proof.
  intros env'. split; [| split].
  - cbn. unfold provider_url, env'. now rewrite lookup_delete_eq.
  - intros w. unfold trace. rewrite POST_run. cbn.
    destruct (net w _) as [[e | resp] |]; [reflexivity | | reflexivity].
    destruct (json_body resp); reflexivity.
  - intros st payload. unfold result. rewrite POST_run. reflexivity.
Qed.

(** C3 (the code departs from it). When the provider call is rejected,
    [POST] throws that very error; when the provider's body is not JSON,
    [POST] throws the [SyntaxError] of [json()]. Nothing catches either. *)
Theorem POST_lets_failures_escape
  (env : gmap jsstring jsstring) (text : jsstring) :
  (forall e : exn,
     result (rejecting e) (POST env (text_body text)) = Thrown e) /\
  (forall (st : Z) (b : blob),
     result (answering {| status := st; json_body := None; blob_body := b |})
            (POST env (text_body text)) =
       Thrown (SyntaxError "Unexpected token in JSON")).
Proof.
  split.
  - intros e. unfold result. rewrite POST_run. reflexivity.
  - intros st b. unfold result. rewrite POST_run. reflexivity.
Qed.

(** C8 (the code departs from it). Whatever [GEMINI_MODEL] is set to, the
    handler is the same program, and the URL it calls names the model
    [gemini-pro]. *)
Theorem POST_model_is_fixed
  (env : gmap jsstring jsstring) (model : jsstring) (request_body : option jsval) :
  POST (<[lit "GEMINI_MODEL" := model]> env) request_body = POST env request_body /\
  provider_url (<[lit "GEMINI_MODEL" := model]> env) =
    lit "https://generativelanguage.googleapis.com/v1beta/models/gemini-pro:generateContent?key="
      ++ interpolate (env !! lit "GEMINI_API_KEY").
Proof.
  assert (Hurl : provider_url (<[lit "GEMINI_MODEL" := model]> env) = provider_url env).
  { unfold provider_url. rewrite lookup_insert_ne; [reflexivity |].
    vm_compute. discriminate. }
  split; [| rewrite Hurl; reflexivity].
  unfold POST, provider_request. rewrite Hurl. reflexivity.
Qed.

(** ** Submitting a post *)

Lemma handleSubmit_blank (w : world) (s : state) :
  trim (newPost s) = [] ->
  run w (handleSubmit s) = ([EvDo PreventDefault], Returned tt).
Proof.
  intros Hblank. unfold handleSubmit. cbn.
  rewrite bool_decide_eq_true_2 by exact Hblank. reflexivity.
Qed.

(** The run of an accepted submission, in terms of the runs of the
    summarization and of the advice step. *)
Lemma handleSubmit_run (w : world) (s : state) :
  trim (newPost s) <> [] ->
  run w (handleSubmit s) =
  let postId := Number_toString (date_now w) in
  match run w (summarizeWithGemini (newPost s)) with
  | (t, Returned v) =>
      let '(t', r) := run w (advice_step s postId) in
      (submit_prefix w s ++ t ++
         [EvDo (PatchSummary postId v); EvDo (SetSummarizing None)] ++ t', r)
  | (t, Thrown e) =>
      let '(t', r) := run w (advice_step s postId) in
      (submit_prefix w s ++ t ++
         [EvDo (ConsoleError (lit "Failed to generate summary:") e);
          EvDo (SetSummarizing None)] ++ t', r)
  | (t, Pending) => (submit_prefix w s ++ t, Pending)
  end.
Proof.
  intros Hnb. unfold handleSubmit. cbn -[summarizeWithGemini getAIAdvice].
  rewrite bool_decide_eq_false_2 by exact Hnb.
  cbn -[summarizeWithGemini getAIAdvice].
  fold (advice_step s (Number_toString (date_now w))).
  unfold mbind, prog_bind.
  rewrite run_bind, run_finally, run_try_catch, run_bind.
  destruct (run w (summarizeWithGemini (newPost s))) as [t [v | e | ]]; cbn.
  - destruct (run w (advice_step s _)) as [t' r]. cbn.
    now rewrite <- !app_assoc.
  - destruct (run w (advice_step s _)) as [t' r]. cbn.
    now rewrite <- !app_assoc.
  - reflexivity.
Qed.

Lemma advice_step_question (w : world) (s : state) (postId : jsstring) :
  postType s = question ->
  run w (advice_step s postId) =
  match run w (getAIAdvice (newPost s)) with
  | (t, Returned v) => (t ++ [EvDo (PatchSummary postId v)], Returned tt)
  | (t, Thrown e) =>
      (t ++ [EvDo (ConsoleError (lit "Failed to get AI advice:") e)], Returned tt)
  | (t, Pending) => (t, Pending)
  end.
Proof.
  intros Hq. unfold advice_step. rewrite Hq. cbn -[getAIAdvice].
  unfold mbind, prog_bind. rewrite run_try_catch, run_bind.
  destruct (run w (getAIAdvice (newPost s))) as [t [v | e | ]]; reflexivity.
Qed.

Lemma advice_step_other (w : world) (s : state) (postId : jsstring) :
  postType s <> question ->
  run w (advice_step s postId) = ([], Returned tt).
Proof.
  intros Hq. unfold advice_step.
  destruct (postType s); try reflexivity. contradiction.
Qed.

Lemma console_error_not_fetch (log : list event) (r : request) :
  forallb is_console_error log = true -> ~ In (EvFetch r) log.
Proof.
  intros Hlog Hin. rewrite forallb_forall in Hlog.
  specialize (Hlog _ Hin). discriminate.
Qed.

Lemma gemini_is_not_dedalus (a b : jsstring) :
  EvFetch (gemini_request a) <> EvFetch (dedalus_request b).
Proof.
  intros H.
  apply (f_equal (fun ev => match ev with EvFetch r => url r | _ => [] end)) in H.
  vm_compute in H. discriminate.
Qed.

(** A list that is cut at an element which its front part lacks is cut
    behind that front part. *)
Lemma cut_behind {A : Type} (front back t1 t2 : list A) (x : A) :
  ~ In x front ->
  front ++ x :: back = t1 ++ x :: t2 ->
  exists l : list A, t1 = front ++ l.
Proof.
  revert t1. induction front as [| y front IH]; intros t1 Hnot Heq.
  - exists t1. reflexivity.
  - destruct t1 as [| y' t1]; cbn in Heq.
    + injection Heq as Hy _. exfalso. apply Hnot. left. exact Hy.
    + injection Heq as Hy Heq. subst y'.
      destruct (IH t1) as [l Hl]; [| exact Heq |].
      * intros Hin. apply Hnot. right. exact Hin.
      * exists l. cbn. now rewrite Hl.
Qed.

(** The trace of an accepted question whose summarization call settles:
    everything up to the advice call. *)
Lemma question_trace (w : world) (s : state) (x : exn + response) :
  trim (newPost s) <> [] ->
  postType s = question ->
  net w (gemini_request (newPost s)) = Some x ->
  exists (log rest : list event) (v : jsval),
    trace w (handleSubmit s) =
      (submit_prefix w s ++
       EvFetch (gemini_request (newPost s)) ::
       EvSettled (gemini_request (newPost s)) x :: log ++
       [EvDo (PatchSummary (Number_toString (date_now w)) v);
        EvDo (SetSummarizing None)]) ++
      EvFetch (dedalus_request (newPost s)) :: rest /\
    forallb is_console_error log = true.
Proof.
  intros Hnb Hq Hnet. unfold trace. rewrite (handleSubmit_run w s Hnb).
  destruct (summarize_settled w (newPost s) x Hnet) as (log & v & Hrun & Hlog & _).
  cbn zeta. rewrite Hrun. rewrite (advice_step_question w s _ Hq).
  destruct (net w (dedalus_request (newPost s))) as [y |] eqn:Hd.
  - destruct (advice_settled w (newPost s) y Hd) as (log' & v' & Hrun' & _).
    rewrite Hrun'. cbn [fst].
    exists log, (EvSettled (dedalus_request (newPost s)) y :: log' ++
                 [EvDo (PatchSummary (Number_toString (date_now w)) v')]), v.
    split; [| exact Hlog]. cbn. now rewrite <- !app_assoc.
  - rewrite (advice_pending w (newPost s) Hd). cbn [fst].
    exists log, [], v. split; [| exact Hlog]. cbn. now rewrite <- !app_assoc.
Qed.

(** Nothing of the part of the trace that precedes the advice call is an
    advice call. *)
Lemma no_advice_before (w : world) (s : state) (x : exn + response)
  (log : list event) (v : jsval) :
  forallb is_console_error log = true ->
  ~ In (EvFetch (dedalus_request (newPost s)))
       (submit_prefix w s ++
        EvFetch (gemini_request (newPost s)) ::
        EvSettled (gemini_request (newPost s)) x :: log ++
        [EvDo (PatchSummary (Number_toString (date_now w)) v);
         EvDo (SetSummarizing None)]).
Proof.
  intros Hlog Hin. apply in_app_or in Hin. destruct Hin as [Hin | Hin].
  - cbn in Hin. intuition discriminate.
  - destruct Hin as [Hin | [Hin | Hin]]; [| discriminate |].
    + exact (gemini_is_not_dedalus _ _ Hin).
    + apply in_app_or in Hin. destruct Hin as [Hin | Hin].
      * exact (console_error_not_fetch log _ Hlog Hin).
      * cbn in Hin. intuition discriminate.
Qed.

(** Wherever the trace of an accepted question is cut at the advice call,
    the summarization call has settled and its summary has been applied
    before the cut. *)
Lemma settled_before_advice (w : world) (s : state) (t1 t2 : list event) :
  trim (newPost s) <> [] ->
  postType s = question ->
  trace w (handleSubmit s) = t1 ++ EvFetch (dedalus_request (newPost s)) :: t2 ->
  exists (x : exn + response) (v : jsval),
    In (EvSettled (gemini_request (newPost s)) x) t1 /\
    In (EvDo (PatchSummary (Number_toString (date_now w)) v)) t1.
Proof.
  intros Hnb Hq Hcut.
  destruct (net w (gemini_request (newPost s))) as [x |] eqn:Hnet.
  - destruct (question_trace w s x Hnb Hq Hnet) as (log & rest & v & Htr & Hlog).
    rewrite Htr in Hcut.
    destruct (cut_behind _ _ _ _ _ (no_advice_before w s x log v Hlog) Hcut)
      as [l Hl].
    exists x, v. rewrite Hl. split.
    + apply in_or_app. left. apply in_or_app. right. right. left. reflexivity.
    + apply in_or_app. left. apply in_or_app. right. right. right.
      apply in_or_app. right. left. reflexivity.
  - exfalso. unfold trace in Hcut. rewrite (handleSubmit_run w s Hnb) in Hcut.
    cbn zeta in Hcut. rewrite (summarize_pending w _ Hnet) in Hcut. cbn [fst] in Hcut.
    assert (Hin : In (EvFetch (dedalus_request (newPost s)))
                     (submit_prefix w s ++ [EvFetch (gemini_request (newPost s))])).
    { rewrite Hcut. apply in_or_app. right. left. reflexivity. }
    apply in_app_or in Hin. destruct Hin as [Hin | [Hin | []]].
    + cbn in Hin. intuition discriminate.
    + exact (gemini_is_not_dedalus _ _ Hin).
Qed.

(** A question while the network is silent: [handleSubmit] stops at the
    summarization call. *)
Example question_suspended :
  run sample_world (handleSubmit (asking "Is my soil too acidic?")) =
  (submit_prefix sample_world (asking "Is my soil too acidic?") ++
   [EvFetch (gemini_request (lit "Is my soil too acidic?"))],
   Pending).
Proof. vm_compute. reflexivity. Qed.

(** The same question when every call is answered with
    [{ "summary": "Soil pH" }]. *)
Example question_answered :
  let x := inr (json_response 200 (VObj [(lit "summary", VStr (lit "Soil pH"))])) in
  let text := lit "Is my soil too acidic?" in
  run (with_net (fun _ => Some x) sample_world)
      (handleSubmit (asking "Is my soil too acidic?")) =
  (submit_prefix sample_world (asking "Is my soil too acidic?") ++
   [EvFetch (gemini_request text); EvSettled (gemini_request text) x;
    EvDo (PatchSummary (lit "1700000000000") (VStr (lit "Soil pH")));
    EvDo (SetSummarizing None);
    EvFetch (dedalus_request text); EvSettled (dedalus_request text) x;
    EvDo (PatchSummary (lit "1700000000000") (VStr (lit "Unable to generate advice")))],
   Returned tt).
Proof. vm_compute. reflexivity. Qed.

(** C4, as amended. For every accepted submission of type question:
    once the summarization call settles, whatever its outcome, the advice
    call is issued; while the summarization call has not settled the advice
    call is not issued and [handleSubmit] stays suspended; and wherever
    the advice call stands in the trace, the settlement of the summarization
    call and the update of the post with its summary stand before it. The
    two calls of one post are never in flight together. *)
Theorem advice_after_summary (w : world) (s : state) :
  trim (newPost s) <> [] ->
  postType s = question ->
  (forall x, net w (gemini_request (newPost s)) = Some x ->
     In (EvFetch (dedalus_request (newPost s))) (trace w (handleSubmit s))) /\
  (net w (gemini_request (newPost s)) = None ->
     ~ In (EvFetch (dedalus_request (newPost s))) (trace w (handleSubmit s)) /\
     result w (handleSubmit s) = Pending) /\
  (forall t1 t2 : list event,
     trace w (handleSubmit s) = t1 ++ EvFetch (dedalus_request (newPost s)) :: t2 ->
     exists (x : exn + response) (v : jsval),
       In (EvSettled (gemini_request (newPost s)) x) t1 /\
       In (EvDo (PatchSummary (Number_toString (date_now w)) v)) t1).
Proof.
  intros Hnb Hq. split; [| split].
  - intros x Hnet.
    destruct (question_trace w s x Hnb Hq Hnet) as (log & rest & v & Htr & _).
    rewrite Htr. apply in_or_app. right. left. reflexivity.
  - intros Hnet. unfold trace, result. rewrite (handleSubmit_run w s Hnb).
    cbn zeta. rewrite (summarize_pending w _ Hnet). cbn [fst snd].
    split; [| reflexivity].
    intros Hin. apply in_app_or in Hin. destruct Hin as [Hin | [Hin | []]].
    + cbn in Hin. intuition discriminate.
    + exact (gemini_is_not_dedalus _ _ Hin).
  - intros t1 t2. apply settled_before_advice; assumption.
Qed.

Lemma advice_after_summary_witness :
  In (EvFetch (dedalus_request (lit "Is my soil too acidic?")))
     (trace (rejecting network_error) (handleSubmit (asking "Is my soil too acidic?"))).
Proof.
  refine (proj1 (advice_after_summary (rejecting network_error)
                   (asking "Is my soil too acidic?") _ _)
                (inl network_error) _).
  - vm_compute. discriminate.
  - reflexivity.
  - reflexivity.
Defined.

(** C4 as stated fails: for the question "Is my soil too acidic?", in a
    world that answers every call, the advice call is not issued while the
    summarization call is unsettled. *)
Lemma advice_waits_counterexample :
  let w := answering (json_response 200 (VObj [(lit "summary", VStr (lit "Soil pH"))])) in
  let s := asking "Is my soil too acidic?" in
  trim (newPost s) <> [] /\ postType s = question /\
  ~ issued_without_waiting w s.
Proof.
  intros w s.
  assert (Hnb : trim (newPost s) <> []) by (vm_compute; discriminate).
  split; [exact Hnb |]. split; [reflexivity |].
  intros (t1 & t2 & Hcut & _ & Hnone).
  destruct (settled_before_advice w s t1 t2 Hnb eq_refl Hcut) as (x & v & Hin & _).
  exact (Hnone x Hin).
Qed.

(** ** Listening to a post *)




(** In the branch of line 89 the flag is not cleared when the browser has
    no speech synthesis: after a refusal with a JSON body (a missing
    credential), nothing plays, no handler is installed and the flag stays
    on the post. The [catch] of line 115 clears it in that situation. *)
Lemma listen_flag_stays_set :
  let w := without_speech (answering no_credential) in
  let p := sample_post in
  let t := trace w (listen p) in
  result w (listen p) = Returned tt /\
  remote_playback t = false /\ local_playback t = false /\
  when_playback_ends t = [] /\
  flag_after_playback t (showing p) = Some (id p).
Proof. vm_compute. repeat split; reflexivity. Qed.

(** ** The list of posts over a session *)

Lemma lit_inj (a b : string) : lit a = lit b -> a = b.
Proof.
  unfold lit. intros H.
  rewrite <- (string_of_list_ascii_of_string a), <- (string_of_list_ascii_of_string b).
  f_equal. revert H.
  generalize (list_ascii_of_string a), (list_ascii_of_string b).
  intros l. induction l as [| c l IH]; intros [| c' l'] H; cbn in H;
    try discriminate; [reflexivity |].
  injection H as Hc Hl. f_equal; [| now apply IH].
  rewrite <- (ascii_N_embedding c), <- (ascii_N_embedding c'). now rewrite Hc.
Qed.

Lemma string_of_int_inj (d d' : Decimal.int) :
  NilEmpty.string_of_int d = NilEmpty.string_of_int d' -> d = d'.
Proof.
  intros H. apply (f_equal NilEmpty.int_of_string) in H.
  rewrite !NilEmpty.isi in H. now injection H.
Qed.

#[local] Instance Number_toString_inj : Inj (=) (=) Number_toString.
Proof.
  intros a b H. unfold Number_toString in H.
  now apply DecimalZ.to_int_inj, string_of_int_inj, lit_inj.
Qed.

Lemma patch_summary_ids (postId : jsstring) (v : jsval) (prev : list Post) :
  List.map id (patch_summary postId v prev) = List.map id prev.
Proof.
  unfold patch_summary. rewrite List.map_map. apply List.map_ext.
  intros p. destruct (jsstring_eqb (id p) postId); reflexivity.
Qed.

(** The ids of the list are those of the inserted posts, latest first, in
    front of those that were there. *)
Lemma post_ids_after (t : list event) (s : state) :
  post_ids (state_after t s) = rev (List.map id (inserted t)) ++ post_ids s.
Proof.
  revert s. induction t as [| ev t IH]; intros s; [reflexivity |].
  unfold state_after in *. cbn [fold_left]. rewrite IH.
  destruct ev as [r | r x | src x | e]; try reflexivity.
  destruct e; try reflexivity.
  - cbn. now rewrite <- app_assoc.
  - unfold post_ids. cbn. now rewrite patch_summary_ids.
Qed.

Lemma inserted_app (a b : list event) : inserted (a ++ b) = inserted a ++ inserted b.
Proof. apply omap_app. Qed.

Lemma inserted_console (log : list event) :
  forallb is_console_error log = true -> inserted log = [].
Proof.
  induction log as [| ev log IH]; [reflexivity |]. cbn.
  intros [Hev Hlog]%andb_prop. unfold inserted in *. cbn.
  destruct ev as [| | | []]; try discriminate. now apply IH.
Qed.

Lemma inserted_summarize (w : world) (text : jsstring) :
  inserted (fst (run w (summarizeWithGemini text))) = [].
Proof.
  destruct (net w (gemini_request text)) as [x |] eqn:Hnet.
  - destruct (summarize_settled w text x Hnet) as (log & v & Hrun & Hlog & _).
    rewrite Hrun. cbn. now apply inserted_console.
  - now rewrite (summarize_pending w text Hnet).
Qed.

#[local] Instance post_type_eq_dec : EqDecision post_type.
Proof. solve_decision. Defined.

Lemma inserted_advice_step (w : world) (s : state) (postId : jsstring) :
  inserted (fst (run w (advice_step s postId))) = [].
Proof.
  destruct (decide (postType s = question)) as [Hq | Hq].
  - rewrite (advice_step_question w s postId Hq).
    destruct (net w (dedalus_request (newPost s))) as [x |] eqn:Hnet.
    + destruct (advice_settled w (newPost s) x Hnet) as (log & v & Hrun & Hlog & _).
      rewrite Hrun. cbn. rewrite inserted_app. cbn.
      now rewrite (inserted_console log Hlog).
    + now rewrite (advice_pending w (newPost s) Hnet).
  - now rewrite (advice_step_other w s postId Hq).
Qed.

(** A submission inserts its one post if the guard lets it through, and
    nothing otherwise. *)
Lemma inserted_submission (sub : submission) :
  inserted (submission_trace sub) =
  if accepted sub then [new_post (snd sub) (fst sub)] else [].
Proof.
  destruct sub as [s w]. unfold submission_trace, accepted, trace. cbn [fst snd].
  destruct (decide (trim (newPost s) = [])) as [Hb | Hnb].
  - rewrite (handleSubmit_blank w s Hb), bool_decide_eq_true_2 by exact Hb.
    reflexivity.
  - rewrite (handleSubmit_run w s Hnb), bool_decide_eq_false_2 by exact Hnb.
    cbn zeta.
    pose proof (inserted_summarize w (newPost s)) as Hsum.
    pose proof (inserted_advice_step w s (Number_toString (date_now w))) as Hadv.
    destruct (run w (summarizeWithGemini (newPost s))) as [t [v | e | ]];
      cbn [fst] in Hsum.
    + destruct (run w (advice_step s _)) as [t' r]. cbn [fst] in *.
      rewrite !inserted_app, Hsum, Hadv. reflexivity.
    + destruct (run w (advice_step s _)) as [t' r]. cbn [fst] in *.
      rewrite !inserted_app, Hsum, Hadv. reflexivity.
    + cbn [fst]. rewrite inserted_app, Hsum. reflexivity.
Qed.

(** Of the posts that the handlers insert, an interleaving has inserted
    some, each once. *)
Lemma interleaving_inserted (ts : list (list event)) (t : list event) :
  interleaving ts t -> inserted t ⊆+ concat (inserted <$> ts).
Proof.
  induction 1 as [ts | ts i ev rest t Hi _ IH]; [apply submseteq_nil_l |].
  assert (Hlen : (i < length ts)%nat) by (eapply lookup_lt_Some; exact Hi).
  rewrite (insert_take_drop ts i rest Hlen) in IH.
  rewrite <- (take_drop_middle ts i (ev :: rest) Hi).
  rewrite fmap_app, concat_app in *. rewrite fmap_cons in *. cbn [concat] in *.
  destruct ev as [r | r x | src x | e]; try exact IH.
  destruct e; try exact IH.
  change (inserted (EvDo (PrependPost p) :: rest)) with (p :: inserted rest).
  change (inserted (EvDo (PrependPost p) :: t)) with (p :: inserted t).
  cbn [app]. now apply submseteq_cons_middle.
Qed.

Lemma inserted_ids_of_session (subs : list submission) :
  List.map id (concat (inserted <$> List.map submission_trace subs)) =
  List.map Number_toString (clock_readings subs).
Proof.
  unfold clock_readings.
  induction subs as [| sub subs IH]; [reflexivity |].
  cbn [List.map fmap list_fmap concat List.filter].
  rewrite List.map_app, IH, inserted_submission.
  destruct (accepted sub); reflexivity.
Qed.

(** Up to any moment, an interleaving has got through some of the events
    of the handlers, each once. *)
Lemma interleaving_events (ts : list (list event)) (t : list event) :
  interleaving ts t -> t ⊆+ concat ts.
Proof.
  induction 1 as [ts | ts i ev rest t Hi _ IH]; [apply submseteq_nil_l |].
  assert (Hlen : (i < length ts)%nat) by (eapply lookup_lt_Some; exact Hi).
  rewrite (insert_take_drop ts i rest Hlen) in IH.
  rewrite <- (take_drop_middle ts i (ev :: rest) Hi).
  rewrite concat_app in *. cbn [concat] in *.
  cbn [app]. now apply submseteq_cons_middle.
Qed.

Lemma inserted_concat (ts : list (list event)) :
  inserted (concat ts) = concat (inserted <$> ts).
Proof.
  induction ts as [| tr trs IH]; [reflexivity |].
  cbn [concat fmap list_fmap]. now rewrite inserted_app, IH.
Qed.

Lemma post_ids_of_one_submission (sub : submission) (s0 : state) :
  post_ids (state_after (submission_trace sub) s0) =
  (if accepted sub then [Number_toString (date_now (snd sub))] else []) ++ post_ids s0.
Proof.
  rewrite post_ids_after, inserted_submission.
  destruct (accepted sub); reflexivity.
Qed.

(** C9, as amended. Each submission that passes the guard inserts its one
    post, with the reading of [Date.now()] as its id, and that post goes to
    the head of the list; a blank submission inserts nothing and leaves the
    list as it is. At every moment of a session, whatever the submissions
    and however their handlers interleave: the ids of the list are those of
    the inserted posts, the latest insertion first, and they are ids of
    submissions that passed the guard, each at most once; when every
    handler has run to its end or to where it is suspended, they are
    exactly those ids; and if the readings of [Date.now()] at the
    submissions that pass the guard are pairwise distinct, so are the ids
    of the list. *)
Theorem post_ids_of_session (subs : list submission) (t : list event) :
  interleaving (List.map submission_trace subs) t ->
  post_ids (state_after t initial) = rev (List.map id (inserted t)) /\
  (forall p : Post,
     posts (state_after (t ++ [EvDo (PrependPost p)]) initial) =
       p :: posts (state_after t initial)) /\
  (NoDup (clock_readings subs) -> NoDup (post_ids (state_after t initial))) /\
  (forall sub : submission,
     inserted (submission_trace sub) =
       if accepted sub then [new_post (snd sub) (fst sub)] else []) /\
  (forall (sub : submission) (s0 : state),
     post_ids (state_after (submission_trace sub) s0) =
       (if accepted sub then [Number_toString (date_now (snd sub))] else []) ++
       post_ids s0) /\
  (forall (sub : submission) (s0 : state),
     accepted sub = false -> posts (state_after (submission_trace sub) s0) = posts s0) /\
  post_ids (state_after t initial) ⊆+ List.map Number_toString (clock_readings subs) /\
  (length t = length (concat (List.map submission_trace subs)) ->
   post_ids (state_after t initial) ≡ₚ List.map Number_toString (clock_readings subs)).
Proof.
  intros Hil.
  assert (Hids : post_ids (state_after t initial) = rev (List.map id (inserted t))).
  { rewrite post_ids_after. cbn. apply app_nil_r. }
  assert (Hsub : List.map id (inserted t) ⊆+
                 List.map Number_toString (clock_readings subs)).
  { pose proof (interleaving_inserted _ _ Hil) as H.
    apply (fmap_submseteq id) in H.
    change (@fmap list _ Post jsstring id) with (@List.map Post jsstring id) in H.
    now rewrite inserted_ids_of_session in H. }
  split; [exact Hids |]. split; [| split; [| split; [| split; [| split; [| split]]]]].
  - intros p. unfold state_after. now rewrite fold_left_app.
  - intros Hclock. rewrite Hids, <- Permutation_rev.
    destruct (submseteq_Permutation _ _ Hsub) as [k Hk].
    assert (Hnd : NoDup (List.map Number_toString (clock_readings subs))).
    { change (NoDup (Number_toString <$> clock_readings subs)).
      now apply NoDup_fmap_2; [apply Number_toString_inj |]. }
    rewrite Hk in Hnd. apply NoDup_app in Hnd. apply Hnd.
  - exact inserted_submission.
  - exact post_ids_of_one_submission.
  - intros [s w] s0 Hacc. unfold accepted in Hacc. cbn [fst snd] in Hacc.
    apply negb_false_iff, bool_decide_eq_true in Hacc.
    unfold submission_trace, trace. cbn [fst snd].
    rewrite (handleSubmit_blank w s Hacc). reflexivity.
  - now rewrite Hids, <- Permutation_rev.
  - intros Hlen. rewrite Hids, <- Permutation_rev.
    rewrite <- inserted_ids_of_session.
    assert (Hperm : t ≡ₚ concat (List.map submission_trace subs)).
    { apply submseteq_length_Permutation; [now apply interleaving_events | lia]. }
    assert (Hins : inserted t ≡ₚ concat (inserted <$> List.map submission_trace subs)).
    { rewrite <- inserted_concat. unfold inserted. now rewrite Hperm. }
    now apply Permutation_map.
Qed.

Ltac interleave :=
  repeat first
    [ apply interleaving_nil
    | eapply (interleaving_cons _ 0%nat); [reflexivity | cbn [insert list_insert] ]
    | eapply (interleaving_cons _ 1%nat); [reflexivity | cbn [insert list_insert] ] ].

Lemma post_ids_of_session_witness :
  let first := (typing "Rain at last", sample_world) in
  let second := (typing "Sowing maize", at_time 1700000000050 sample_world) in
  let t := submission_trace first ++ submission_trace second in
  NoDup (post_ids (state_after t initial)).
Proof.
  intros first second t.
  refine (proj1 (proj2 (proj2 (post_ids_of_session [first; second] t _))) _).
  - vm_compute. interleave.
  - change (NoDup [1700000000000; 1700000000050]).
    apply NoDup_cons_2; [| apply NoDup_singleton].
    intros Hin. apply list_elem_of_singleton in Hin. discriminate.
Defined.

(** C9 as stated fails: two submissions at the same reading of the clock
    (the second handler runs while the first awaits its summary) leave two
    posts with the same id. *)
Lemma duplicate_ids_counterexample :
  let sub := (typing "Rain at last", sample_world) in
  let t := submission_trace sub ++ submission_trace sub in
  interleaving [submission_trace sub; submission_trace sub] t /\
  post_ids (state_after t initial) = [lit "1700000000000"; lit "1700000000000"] /\
  ~ NoDup (post_ids (state_after t initial)).
Proof.
  intros sub t. split; [vm_compute; interleave |].
  assert (Hids : post_ids (state_after t initial) =
                 [lit "1700000000000"; lit "1700000000000"])
    by (vm_compute; reflexivity).
  split; [exact Hids |]. rewrite Hids. intros Hnd.
  apply NoDup_cons_1_1 in Hnd. apply Hnd. left.
Qed.

(** * Further properties of the code *)

(** ** The route *)

(** The run of [POST] on a parsed body [v] whose [text] property reads as
    [text]. *)
Lemma POST_run_parsed (env : gmap jsstring jsstring) (w : world) (v text : jsval) :
  get_prop v "text" = inr text ->
  run w (POST env (Some v)) =
  let r := provider_request env text in
  match net w r with
  | None => ([EvFetch r], Pending)
  | Some (inl e) => ([EvFetch r; EvSettled r (inl e)], Thrown e)
  | Some (inr resp) =>
      match json_body resp with
      | None =>
          ([EvFetch r; EvSettled r (inr resp)],
           Thrown (SyntaxError "Unexpected token in JSON"))
      | Some payload =>
          ([EvFetch r; EvSettled r (inr resp);
            EvDo (ConsoleLog [VStr (lit "[THIS IS THE TRUE GEMINI ROUTE]")]);
            EvDo (ConsoleLog [VStr (lit "[GEMINI RAW RESULT]"); payload])],
           Returned (Reply 200 payload))
      end
  end.
Proof.
  intros Htext. unfold POST, prop. cbn -[get_prop]. rewrite Htext.
  cbn. destruct (net w _) as [[e | resp] |]; cbn; try reflexivity.
  unfold json. destruct (json_body resp); reflexivity.
Qed.

Lemma get_prop_cases (v : jsval) (key : string) :
  (exists e, get_prop v key = inl e /\ (v = VNull \/ v = VUndefined)) \/
  (exists x, get_prop v key = inr x).
Proof.
  destruct v; cbn; eauto.
Qed.

(** X1. Whatever the environment, the request body and the behaviour of
    the provider, one invocation of [POST] calls the provider at most once:
    nothing is retried. *)
Theorem POST_calls_at_most_once
  (env : gmap jsstring jsstring) (request_body : option jsval) (w : world) :
  (length (fetches (trace w (POST env request_body))) <= 1)%nat.
Proof.
  unfold trace. destruct request_body as [v |]; [| cbn; lia].
  destruct (get_prop_cases v "text") as [(e & He & _) | (x & Hx)].
  - unfold POST, prop. cbn -[get_prop]. rewrite He. cbn. lia.
  - rewrite (POST_run_parsed env w v x Hx). cbn.
    destruct (net w _) as [[e | resp] |]; cbn; try lia.
    destruct (json_body resp); cbn; lia.
Qed.

(** X2. A request whose body is not JSON, or is [null], makes [POST]
    throw before anything is sent to the provider. Every other body
    reaches the provider, with its [text] property as it is: nothing checks
    that it is there or that it is a string. *)
Theorem POST_validates_nothing (env : gmap jsstring jsstring) (w : world) :
  run w (POST env None) = ([], Thrown (SyntaxError "Unexpected end of JSON input")) /\
  (exists e, run w (POST env (Some VNull)) = ([], Thrown e)) /\
  (forall v text : jsval,
     get_prop v "text" = inr text ->
     head (trace w (POST env (Some v))) = Some (EvFetch (provider_request env text))).
Proof.
  split; [reflexivity |]. split; [eexists; reflexivity |].
  intros v text Htext. unfold trace. rewrite (POST_run_parsed env w v text Htext).
  cbn. destruct (net w _) as [[e | resp] |]; [reflexivity | | reflexivity].
  destruct (json_body resp); reflexivity.
Qed.

Lemma POST_validates_nothing_witness :
  head (trace sample_world (POST ∅ (Some (VObj [(lit "prompt", VNum 1)])))) =
  Some (EvFetch (provider_request ∅ VUndefined)).
Proof.
  apply (proj2 (proj2 (POST_validates_nothing ∅ sample_world))).
  reflexivity.
Defined.

(** ** The client behind the route *)

(** X3. When [/api/gemini] is served by the route of this repository and
    the provider answers, with whatever status, a JSON object, the summary
    that [summarizeWithGemini] yields is the top-level [summary] property
    of the provider's own payload if that is truthy, and the string
    "Unable to generate summary" otherwise: the text of the provider's
    candidates is never what the feed shows. *)
Theorem summary_behind_route
  (env : gmap jsstring jsstring) (provider w : world) (text : jsstring)
  (resp : response) (props : list (jsstring * jsval)) :
  served_by_route env provider w ->
  net provider (provider_request env (VStr text)) = Some (inr resp) ->
  json_body resp = Some (VObj props) ->
  result w (summarizeWithGemini text) =
    Returned (js_or (own_prop (lit "summary") props)
                    (VStr (lit "Unable to generate summary"))).
Proof.
  intros Hserved Hnet Hjson.
  assert (Hrep : result provider (POST env (Some (body (gemini_request text)))) =
                 Returned (Reply 200 (VObj props))).
  { change (Some (body (gemini_request text))) with (text_body text).
    unfold result. rewrite POST_run. cbn zeta. now rewrite Hnet, Hjson. }
  pose proof (Hserved (gemini_request text) _ eq_refl Hrep) as Hw.
  destruct (summarize_settled w text _ Hw) as (log & v & Hrun & _ & _ & Hok).
  unfold result. rewrite Hrun. cbn [snd]. now rewrite Hok.
Qed.

Lemma summary_behind_route_witness :
  let env : gmap jsstring jsstring := {[ lit "GEMINI_API_KEY" := lit "k" ]} in
  let provider := answering (json_response 200 sample_payload) in
  let w := with_net (handed_to_route env provider) sample_world in
  result w (summarizeWithGemini (lit "Rain at last")) =
    Returned (VStr (lit "Unable to generate summary")).
Proof.
  intros env provider w.
  assert (Hserved : served_by_route env provider w).
  { intros r rep _ Hrep.
    change (net w r) with (handed_to_route env provider r).
    unfold handed_to_route. now rewrite Hrep. }
  exact (summary_behind_route env provider w (lit "Rain at last")
           (json_response 200 sample_payload) _ Hserved eq_refl eq_refl).
Defined.

(** ** [summarizeWithGemini] and [getAIAdvice] *)

Lemma fetches_app (a b : list event) : fetches (a ++ b) = fetches a ++ fetches b.
Proof. apply omap_app. Qed.

Lemma fetches_console (log : list event) :
  forallb is_console_error log = true -> fetches log = [].
Proof.
  induction log as [| ev log IH]; [reflexivity |]. cbn.
  intros [Hev Hlog]%andb_prop. unfold fetches in *. cbn.
  destruct ev as [| | | []]; try discriminate. now apply IH.
Qed.

(** X4. In every world, whatever the proxy answers and however its body
    is typed, each of the two operations issues exactly one call, with the
    text in the request body, and never throws: it returns once the call
    has settled and stays suspended as long as it has not. *)
Theorem one_call_and_no_throw (w : world) (text : jsstring) :
  (fetches (trace w (summarizeWithGemini text)) = [gemini_request text] /\
   (forall e, result w (summarizeWithGemini text) <> Thrown e) /\
   (result w (summarizeWithGemini text) = Pending <->
    net w (gemini_request text) = None)) /\
  (fetches (trace w (getAIAdvice text)) = [dedalus_request text] /\
   (forall e, result w (getAIAdvice text) <> Thrown e) /\
   (result w (getAIAdvice text) = Pending <->
    net w (dedalus_request text) = None)).
Proof.
  unfold trace, result. split.
  - destruct (net w (gemini_request text)) as [x |] eqn:Hnet.
    + destruct (summarize_settled w text x Hnet) as (log & v & Hrun & Hlog & _).
      rewrite Hrun. cbn [fst snd]. repeat split; try discriminate.
      change (gemini_request text :: fetches log = [gemini_request text]).
      now rewrite (fetches_console log Hlog).
    + rewrite (summarize_pending w text Hnet). cbn [fst snd].
      repeat split; discriminate.
  - destruct (net w (dedalus_request text)) as [x |] eqn:Hnet.
    + destruct (advice_settled w text x Hnet) as (log & v & Hrun & Hlog & _).
      rewrite Hrun. cbn [fst snd]. repeat split; try discriminate.
      change (dedalus_request text :: fetches log = [dedalus_request text]).
      now rewrite (fetches_console log Hlog).
    + rewrite (advice_pending w text Hnet). cbn [fst snd].
      repeat split; discriminate.
Qed.

Lemma one_call_and_no_throw_witness :
  result (answering (json_response 200 (VObj [(lit "summary", VNum 7)])))
         (summarizeWithGemini (lit "Rain at last")) <> Thrown network_error.
Proof.
  exact (proj1 (proj2 (proj1 (one_call_and_no_throw
    (answering (json_response 200 (VObj [(lit "summary", VNum 7)])))
    (lit "Rain at last")))) network_error).
Defined.

(** X5. The local fallback summary is short and stable: it has the length
    of the text when that is at most 100 code units and 103 code units
    otherwise, it starts with the same 100 code units as the text, and
    truncating it again changes nothing. *)
Theorem truncate_is_bounded (text : jsstring) :
  length (truncate text) = (if (100 <? length text)%nat then 103%nat else length text) /\
  (length (truncate text) <= 103)%nat /\
  take 100 (truncate text) = take 100 text /\
  truncate (truncate text) = truncate text.
Proof.
  unfold truncate, substring0.
  destruct (100 <? length text)%nat eqn:Hlong.
  - apply Nat.ltb_lt in Hlong.
    assert (Hlen : length (take 100 text ++ lit "...") = 103%nat).
    { rewrite length_app, length_take.
      change (length (lit "...")) with 3%nat. lia. }
    assert (Htake : take 100 (take 100 text ++ lit "...") = take 100 text).
    { rewrite take_app_le by (rewrite length_take; lia).
      rewrite take_take. f_equal. }
    rewrite Hlen. repeat split; [lia | exact Htake |].
    cbn [Nat.ltb Nat.leb]. now rewrite Htake.
  - rewrite Hlong. apply Nat.ltb_ge in Hlong. repeat split. lia.
Qed.

(** ** [trim] and the guard of [handleSubmit] *)

Lemma forallb_rev (f : N -> bool) (l : list N) :
  forallb f (rev l) = true <-> forallb f l = true.
Proof.
  rewrite !forallb_forall. split; intros H x Hx; apply H.
  - now apply (proj1 (in_rev l x)).
  - now apply (proj2 (in_rev l x)).
Qed.

Lemma trimStart_split (s : jsstring) :
  exists a : jsstring, s = a ++ trimStart s /\ forallb is_js_space a = true.
Proof.
  induction s as [| c s (a & Hs & Ha)]; [exists []; split; reflexivity |].
  cbn [trimStart]. destruct (is_js_space c) eqn:Hc.
  - exists (c :: a). split; [cbn; now rewrite <- Hs |]. cbn. now rewrite Hc.
  - exists []. split; reflexivity.
Qed.

Lemma trimStart_head (s : jsstring) :
  from_option is_js_space false (head (trimStart s)) = false.
Proof.
  induction s as [| c s IH]; [reflexivity |].
  cbn [trimStart]. destruct (is_js_space c) eqn:Hc; [exact IH | exact Hc].
Qed.

Lemma trimStart_fixed (s : jsstring) :
  from_option is_js_space false (head s) = false -> trimStart s = s.
Proof.
  destruct s as [| c s]; [reflexivity |]. cbn. now intros ->.
Qed.

Lemma trimStart_nil (s : jsstring) :
  trimStart s = [] <-> forallb is_js_space s = true.
Proof.
  induction s as [| c s IH]; [easy |].
  cbn. destruct (is_js_space c); [exact IH | easy].
Qed.

Lemma trimEnd_split (s : jsstring) :
  exists b : jsstring, s = trimEnd s ++ b /\ forallb is_js_space b = true.
Proof.
  unfold trimEnd. destruct (trimStart_split (rev s)) as (a & Hs & Ha).
  exists (rev a). split; [| now apply forallb_rev].
  rewrite <- rev_app_distr, <- Hs. symmetry. apply rev_involutive.
Qed.

Lemma trimEnd_last (s : jsstring) :
  from_option is_js_space false (last (trimEnd s)) = false.
Proof.
  unfold trimEnd. rewrite rev_alt. fold (reverse (trimStart (rev s))).
  rewrite last_reverse. apply trimStart_head.
Qed.

Lemma trimEnd_head (s : jsstring) :
  from_option is_js_space false (head s) = false ->
  from_option is_js_space false (head (trimEnd s)) = false.
Proof.
  intros Hs. destruct (trimEnd_split s) as (b & Hsplit & _).
  destruct (trimEnd s) as [| c m]; [reflexivity |].
  rewrite Hsplit in Hs. exact Hs.
Qed.

Lemma trimEnd_fixed (s : jsstring) :
  from_option is_js_space false (last s) = false -> trimEnd s = s.
Proof.
  intros Hs. unfold trimEnd. rewrite trimStart_fixed; [apply rev_involutive |].
  rewrite rev_alt. fold (reverse s). now rewrite head_reverse.
Qed.

Lemma trim_split (s : jsstring) :
  exists a b : jsstring,
    s = a ++ trim s ++ b /\
    forallb is_js_space a = true /\ forallb is_js_space b = true.
Proof.
  destruct (trimStart_split s) as (a & Hs & Ha).
  destruct (trimEnd_split (trimStart s)) as (b & Hm & Hb).
  exists a, b. unfold trim. now rewrite <- Hm.
Qed.

(** [trim] takes off exactly the white space at both ends: the string is
    white space, then its [trim], then white space; the [trim] neither
    starts nor ends with white space; and trimming twice is trimming
    once. *)
Lemma trim_strips_the_ends (s : jsstring) :
  (exists a b : jsstring,
     s = a ++ trim s ++ b /\
     forallb is_js_space a = true /\ forallb is_js_space b = true) /\
  from_option is_js_space false (head (trim s)) = false /\
  from_option is_js_space false (last (trim s)) = false /\
  trim (trim s) = trim s.
Proof.
  assert (Hhead : from_option is_js_space false (head (trim s)) = false).
  { unfold trim. apply trimEnd_head, trimStart_head. }
  assert (Hlast : from_option is_js_space false (last (trim s)) = false).
  { unfold trim. apply trimEnd_last. }
  split; [apply trim_split | split; [exact Hhead | split; [exact Hlast |]]].
  unfold trim at 1. rewrite (trimStart_fixed _ Hhead). now apply trimEnd_fixed.
Qed.

Lemma trim_nil (s : jsstring) : trim s = [] <-> forallb is_js_space s = true.
Proof.
  split.
  - intros Hnil. destruct (trim_split s) as (a & b & Hs & Ha & Hb).
    rewrite Hs, Hnil, !forallb_app, Ha, Hb. reflexivity.
  - intros Hall. apply trimStart_nil in Hall. unfold trim. now rewrite Hall.
Qed.

(** X6. The guard of [handleSubmit] turns away exactly the texts that
    consist of white space only (the empty text among them): such a
    submission only prevents the default action of the form, sends nothing
    and leaves the state as it is. Any other text inserts its one post. *)
Theorem blank_submissions_are_ignored (w : world) (s s0 : state) :
  (forallb is_js_space (newPost s) = true ->
     run w (handleSubmit s) = ([EvDo PreventDefault], Returned tt) /\
     state_after (trace w (handleSubmit s)) s0 = s0) /\
  (forallb is_js_space (newPost s) = false ->
     inserted (trace w (handleSubmit s)) = [new_post w s]).
Proof.
  split.
  - intros Hall. apply trim_nil in Hall.
    unfold trace. rewrite (handleSubmit_blank w s Hall). split; [reflexivity |].
    destruct s0; reflexivity.
  - intros Hsome.
    assert (Hnb : trim (newPost s) <> []).
    { intros Hnil. apply trim_nil in Hnil. congruence. }
    pose proof (inserted_submission (s, w)) as Hins.
    unfold submission_trace, accepted in Hins. cbn [fst snd] in Hins.
    now rewrite bool_decide_eq_false_2 in Hins by exact Hnb.
Qed.

Lemma blank_submissions_are_ignored_witness :
  run sample_world (handleSubmit (typing "  ")) = ([EvDo PreventDefault], Returned tt) /\
  inserted (trace sample_world (handleSubmit (typing " rain "))) =
    [new_post sample_world (typing " rain ")].
Proof.
  split.
  - apply (proj1 (blank_submissions_are_ignored sample_world (typing "  ") initial)).
    reflexivity.
  - apply (proj2 (blank_submissions_are_ignored sample_world (typing " rain ") initial)).
    reflexivity.
Defined.

(** ** One submission, from the click to the end *)

(** The run of an accepted submission, case by case. *)
Lemma handleSubmit_unfolded (w : world) (s : state) :
  trim (newPost s) <> [] ->
  let postId := Number_toString (date_now w) in
  let g := gemini_request (newPost s) in
  let d := dedalus_request (newPost s) in
  match net w g with
  | None => run w (handleSubmit s) = (submit_prefix w s ++ [EvFetch g], Pending)
  | Some x =>
      exists (log : list event) (v : jsval),
        run w (summarizeWithGemini (newPost s)) =
          (EvFetch g :: EvSettled g x :: log, Returned v) /\
        forallb is_console_error log = true /\
        if post_type_eqb (postType s) question then
          match net w d with
          | None =>
              run w (handleSubmit s) =
                (submit_prefix w s ++ EvFetch g :: EvSettled g x :: log ++
                   [EvDo (PatchSummary postId v); EvDo (SetSummarizing None);
                    EvFetch d],
                 Pending)
          | Some y =>
              exists (log' : list event) (v' : jsval),
                run w (getAIAdvice (newPost s)) =
                  (EvFetch d :: EvSettled d y :: log', Returned v') /\
                forallb is_console_error log' = true /\
                run w (handleSubmit s) =
                  (submit_prefix w s ++ EvFetch g :: EvSettled g x :: log ++
                     [EvDo (PatchSummary postId v); EvDo (SetSummarizing None)] ++
                     EvFetch d :: EvSettled d y :: log' ++
                     [EvDo (PatchSummary postId v')],
                   Returned tt)
          end
        else
          run w (handleSubmit s) =
            (submit_prefix w s ++ EvFetch g :: EvSettled g x :: log ++
               [EvDo (PatchSummary postId v); EvDo (SetSummarizing None)],
             Returned tt)
  end.
Proof.
  intros Hnb postId g d. subst postId g d.
  rewrite (handleSubmit_run w s Hnb). cbn zeta.
  destruct (net w (gemini_request (newPost s))) as [x |] eqn:Hg.
  - destruct (summarize_settled w (newPost s) x Hg) as (log & v & Hrun & Hlog & _).
    exists log, v. split; [exact Hrun |]. split; [exact Hlog |]. rewrite Hrun.
    destruct (post_type_eqb (postType s) question) eqn:Hq.
    + assert (Hq' : postType s = question) by (destruct (postType s); easy).
      rewrite (advice_step_question w s _ Hq').
      destruct (net w (dedalus_request (newPost s))) as [y |] eqn:Hd.
      * destruct (advice_settled w (newPost s) y Hd) as (log' & v' & Hrun' & Hlog' & _).
        exists log', v'. split; [exact Hrun' |]. split; [exact Hlog' |].
        rewrite Hrun'. cbn. rewrite <- ?app_assoc. reflexivity.
      * rewrite (advice_pending w (newPost s) Hd). cbn.
        rewrite <- ?app_assoc. reflexivity.
    + assert (Hq' : postType s <> question) by (destruct (postType s); easy).
      rewrite (advice_step_other w s _ Hq'). cbn. rewrite ?app_nil_r. reflexivity.
  - now rewrite (summarize_pending w (newPost s) Hg).
Qed.

(** An accepted submission starts with its synchronous part and the
    summarization call. *)
Lemma handleSubmit_starts (w : world) (s : state) :
  trim (newPost s) <> [] ->
  exists rest : list event,
    trace w (handleSubmit s) =
      submit_prefix w s ++ EvFetch (gemini_request (newPost s)) :: rest.
Proof.
  intros Hnb.
  pose proof (handleSubmit_unfolded w s Hnb) as H. cbn zeta in H. unfold trace.
  destruct (net w (gemini_request (newPost s))) as [x |].
  - destruct H as (log & v & _ & _ & H).
    destruct (post_type_eqb (postType s) question).
    + destruct (net w (dedalus_request (newPost s))) as [y |].
      * destruct H as (log' & v' & _ & _ & H). rewrite H. eexists. reflexivity.
      * rewrite H. eexists. reflexivity.
    + rewrite H. eexists. reflexivity.
  - rewrite H. eexists. reflexivity.
Qed.

(** X7. An accepted submission shows its post before anything comes back
    from the network: up to its first call, which is the summarization of
    the text, it has put the new post, without a summary, at the head of
    the list, emptied the input, switched the loading flag off again and
    marked the post as being summarized. *)
Theorem submit_shows_post_at_once (w : world) (s s0 : state) :
  trim (newPost s) <> [] ->
  (exists rest : list event,
     trace w (handleSubmit s) =
       submit_prefix w s ++ EvFetch (gemini_request (newPost s)) :: rest) /\
  state_after (submit_prefix w s) s0 =
    {| posts := new_post w s :: posts s0; newPost := []; postType := postType s0;
       loading := false; summarizing := Some (Number_toString (date_now w));
       playingAudio := playingAudio s0 |} /\
  summary (new_post w s) = None /\ content (new_post w s) = newPost s.
Proof.
  intros Hnb. split; [| repeat split]. now apply handleSubmit_starts.
Qed.

Lemma submit_shows_post_at_once_witness :
  exists rest : list event,
    trace sample_world (handleSubmit (typing "Rain at last")) =
      submit_prefix sample_world (typing "Rain at last") ++
      EvFetch (gemini_request (lit "Rain at last")) :: rest.
Proof.
  refine (proj1 (submit_shows_post_at_once sample_world (typing "Rain at last")
                   initial _)).
  vm_compute. discriminate.
Defined.

(** X8. [handleSubmit] never throws, in any world and whatever the
    proxies answer: it returns, or stays suspended at a call that does not
    settle. *)
Theorem handleSubmit_never_throws (w : world) (s : state) (e : exn) :
  result w (handleSubmit s) <> Thrown e.
Proof.
  unfold result. destruct (decide (trim (newPost s) = [])) as [Hb | Hnb].
  - rewrite (handleSubmit_blank w s Hb). discriminate.
  - pose proof (handleSubmit_unfolded w s Hnb) as H. cbn zeta in H.
    destruct (net w (gemini_request (newPost s))) as [x |].
    + destruct H as (log & v & _ & _ & H).
      destruct (post_type_eqb (postType s) question).
      * destruct (net w (dedalus_request (newPost s))) as [y |].
        -- destruct H as (log' & v' & _ & _ & H). rewrite H. discriminate.
        -- rewrite H. discriminate.
      * rewrite H. discriminate.
    + rewrite H. discriminate.
Qed.

Lemma handleSubmit_never_throws_witness :
  result (answering (json_response 502 VNull))
         (handleSubmit (asking "Is my soil too acidic?")) <> Thrown network_error.
Proof.
  exact (handleSubmit_never_throws (answering (json_response 502 VNull))
           (asking "Is my soil too acidic?") network_error).
Defined.

(** X9. The calls of one submission: none for a blank text; otherwise the
    summarization call, followed, for a question whose summarization call
    has settled, by the advice call, and by nothing else. A post that is no
    question never reaches the advice proxy. *)
Theorem calls_of_a_submission (w : world) (s : state) :
  fetches (trace w (handleSubmit s)) =
  if bool_decide (trim (newPost s) = []) then []
  else
    gemini_request (newPost s) ::
    (if post_type_eqb (postType s) question &&
        bool_decide (is_Some (net w (gemini_request (newPost s))))
     then [dedalus_request (newPost s)] else []).
Proof.
  unfold trace. destruct (decide (trim (newPost s) = [])) as [Hb | Hnb].
  - rewrite (handleSubmit_blank w s Hb), bool_decide_eq_true_2 by exact Hb.
    reflexivity.
  - rewrite bool_decide_eq_false_2 by exact Hnb.
    pose proof (handleSubmit_unfolded w s Hnb) as H. cbn zeta in H.
    destruct (net w (gemini_request (newPost s))) as [x |].
    + rewrite bool_decide_eq_true_2 by eauto. rewrite andb_true_r.
      destruct H as (log & v & _ & Hlog & H).
      destruct (post_type_eqb (postType s) question).
      * destruct (net w (dedalus_request (newPost s))) as [y |].
        -- destruct H as (log' & v' & _ & Hlog' & H). rewrite H. cbn [fst].
           rewrite fetches_app. cbn.
           change (fetches (EvFetch ?r :: EvSettled ?r' ?x' :: ?l)) with (r :: fetches l).
           rewrite !fetches_app, (fetches_console log Hlog). cbn.
           change (fetches (EvFetch ?r :: EvSettled ?r' ?x' :: ?l)) with (r :: fetches l).
           rewrite !fetches_app, (fetches_console log' Hlog'). reflexivity.
        -- rewrite H. cbn [fst]. rewrite fetches_app. cbn.
           change (fetches (EvFetch ?r :: EvSettled ?r' ?x' :: ?l)) with (r :: fetches l).
           rewrite !fetches_app, (fetches_console log Hlog). reflexivity.
      * rewrite H. cbn [fst]. rewrite fetches_app. cbn.
        change (fetches (EvFetch ?r :: EvSettled ?r' ?x' :: ?l)) with (r :: fetches l).
        rewrite !fetches_app, (fetches_console log Hlog). reflexivity.
    + rewrite bool_decide_eq_false_2 by (intros [? ?]; discriminate).
      rewrite andb_false_r, H. reflexivity.
Qed.

Lemma jsstring_eqb_refl (a : jsstring) : jsstring_eqb a a = true.
Proof. now apply jsstring_eqb_true. Qed.

Lemma state_after_app (a b : list event) (s : state) :
  state_after (a ++ b) s = state_after b (state_after a s).
Proof. apply fold_left_app. Qed.

Lemma state_after_console (log : list event) (s : state) :
  forallb is_console_error log = true -> state_after log s = s.
Proof.
  revert s. induction log as [| ev log IH]; intros s; [reflexivity |]. cbn.
  intros [Hev Hlog]%andb_prop.
  destruct ev as [| | | []]; try discriminate. now apply IH.
Qed.

Lemma console_touches_only (postId : jsstring) (log : list event) :
  forallb is_console_error log = true -> forallb (touches_only postId) log = true.
Proof.
  induction log as [| ev log IH]; [reflexivity |]. cbn.
  intros [Hev Hlog]%andb_prop.
  destruct ev as [| | | []]; try discriminate. now apply IH.
Qed.

Lemma patch_summary_other (postId : jsstring) (v : jsval) (prev : list Post)
  (i : nat) (p : Post) :
  prev !! i = Some p -> id p <> postId ->
  patch_summary postId v prev !! i = Some p.
Proof.
  intros Hp Hne. unfold patch_summary.
  change (@List.map Post Post) with (@fmap list _ Post Post).
  rewrite list_lookup_fmap, Hp. cbn.
  now rewrite (proj2 (jsstring_eqb_false (id p) postId) Hne).
Qed.

(** Events that touch only the posts of one id keep every other post in
    its place. *)
Lemma touches_only_keeps (postId : jsstring) (t : list event) (s : state)
  (i : nat) (p : Post) :
  forallb (touches_only postId) t = true ->
  posts s !! i = Some p -> id p <> postId ->
  posts (state_after t s) !! i = Some p.
Proof.
  revert s. induction t as [| ev t IH]; intros s Ht Hp Hne; [exact Hp |].
  cbn in Ht. apply andb_prop in Ht as [Hev Ht].
  change (state_after (ev :: t) s) with (state_after t (apply_event s ev)).
  apply IH; [exact Ht | | exact Hne].
  destruct ev as [r | r x | src x | e]; try exact Hp.
  destruct e; try exact Hp; try discriminate.
  cbn in Hev. apply jsstring_eqb_true in Hev. subst postId0.
  cbn. now apply patch_summary_other.
Qed.

(** After its synchronous part an accepted submission touches only the
    posts of its own id. *)
Lemma handleSubmit_touches (w : world) (s : state) :
  trim (newPost s) <> [] ->
  exists rest : list event,
    trace w (handleSubmit s) = submit_prefix w s ++ rest /\
    forallb (touches_only (Number_toString (date_now w))) rest = true.
Proof.
  intros Hnb. pose proof (handleSubmit_unfolded w s Hnb) as H. cbn zeta in H.
  unfold trace.
  destruct (net w (gemini_request (newPost s))) as [x |].
  - destruct H as (log & v & _ & Hlog & H).
    apply (console_touches_only (Number_toString (date_now w))) in Hlog.
    destruct (post_type_eqb (postType s) question).
    + destruct (net w (dedalus_request (newPost s))) as [y |].
      * destruct H as (log' & v' & _ & Hlog' & H).
        apply (console_touches_only (Number_toString (date_now w))) in Hlog'.
        rewrite H. eexists. split; [reflexivity |]. cbn.
        rewrite !forallb_app, Hlog. cbn. rewrite !forallb_app, Hlog'. cbn.
        now rewrite !jsstring_eqb_refl.
      * rewrite H. eexists. split; [reflexivity |]. cbn.
        rewrite !forallb_app, Hlog. cbn. now rewrite !jsstring_eqb_refl.
    + rewrite H. eexists. split; [reflexivity |]. cbn.
      rewrite !forallb_app, Hlog. cbn. now rewrite !jsstring_eqb_refl.
  - rewrite H. eexists. split; reflexivity.
Qed.

Lemma js_or_truthy (a b : jsval) : truthy b = true -> truthy (js_or a b) = true.
Proof. intros Hb. unfold js_or. destruct (truthy a) eqn:Ha; assumption. Qed.

Lemma summarize_truthy (w : world) (text : jsstring) (v : jsval) :
  text <> [] -> result w (summarizeWithGemini text) = Returned v -> truthy v = true.
Proof.
  intros Hne Hres. unfold result in Hres.
  destruct (net w (gemini_request text)) as [x |] eqn:Hnet.
  - destruct (summarize_settled w text x Hnet) as (log & v0 & Hrun & _ & Hf & Hk).
    rewrite Hrun in Hres. injection Hres as <-.
    destruct (proxy_failed x).
    + rewrite (Hf eq_refl). cbn.
      apply negb_true_iff, bool_decide_eq_false. now apply truncate_nonempty.
    + rewrite (Hk eq_refl). now apply js_or_truthy.
  - rewrite (summarize_pending w text Hnet) in Hres. discriminate.
Qed.

Lemma advice_truthy (w : world) (text : jsstring) (v : jsval) :
  result w (getAIAdvice text) = Returned v -> truthy v = true.
Proof.
  intros Hres. unfold result in Hres.
  destruct (net w (dedalus_request text)) as [x |] eqn:Hnet.
  - destruct (advice_settled w text x Hnet) as (log & v0 & Hrun & _ & Hf & Hk).
    rewrite Hrun in Hres. injection Hres as <-.
    destruct (proxy_failed x).
    + now rewrite (Hf eq_refl).
    + rewrite (Hk eq_refl). now apply js_or_truthy.
  - rewrite (advice_pending w text Hnet) in Hres. discriminate.
Qed.

Lemma trim_nonempty (s : jsstring) : trim s <> [] -> s <> [].
Proof. intros H ->. now apply H. Qed.

(** X10. Once its calls have settled, an accepted submission has
    returned, the summarizing mark is off, the input is empty, and the new
    post stands at the head of the list with the result as its summary: the
    value of [getAIAdvice] for a question (the advice replaces the summary
    that was applied before it), the value of [summarizeWithGemini] for any
    other post. The post then shows the box with that result, not the
    spinner and not nothing. *)
Theorem settled_submission_shows_result
  (w : world) (s s0 : state) :
  trim (newPost s) <> [] ->
  is_Some (net w (gemini_request (newPost s))) ->
  (postType s = question -> is_Some (net w (dedalus_request (newPost s)))) ->
  exists v : jsval,
    result w (if post_type_eqb (postType s) question
              then getAIAdvice (newPost s)
              else summarizeWithGemini (newPost s)) = Returned v /\
    result w (handleSubmit s) = Returned tt /\
    let s' := state_after (trace w (handleSubmit s)) s0 in
    head (posts s') = Some (with_summary (new_post w s) v) /\
    length (posts s') = S (length (posts s0)) /\
    summarizing s' = None /\ loading s' = false /\ newPost s' = [] /\
    summary_view s' (with_summary (new_post w s) v) = SummaryBox v.
Proof.
  intros Hnb [x Hg] Hadv.
  pose proof (handleSubmit_unfolded w s Hnb) as H. cbn zeta in H.
  rewrite Hg in H. destruct H as (log & v & Hrun & Hlog & H).
  unfold result, trace.
  destruct (post_type_eqb (postType s) question) eqn:Hq.
  - assert (Hq' : postType s = question) by (destruct (postType s); easy).
    destruct (Hadv Hq') as [y Hd]. rewrite Hd in H.
    destruct H as (log' & v' & Hrun' & Hlog' & H).
    assert (Hv : truthy v' = true).
    { apply (advice_truthy w (newPost s)). unfold result. now rewrite Hrun'. }
    exists v'. rewrite Hrun', H. cbn [fst snd].
    split; [reflexivity |]. split; [reflexivity |].
    rewrite state_after_app.
    change (state_after (EvFetch ?r :: EvSettled ?r' ?x' :: ?l) ?st)
      with (state_after l st).
    rewrite state_after_app, (state_after_console log _ Hlog).
    change (state_after ([?a; ?b] ++ EvFetch ?r :: EvSettled ?r' ?x' :: ?l) ?st)
      with (state_after l (apply_event (apply_event st a) b)).
    rewrite state_after_app, (state_after_console log' _ Hlog').
    cbn. rewrite !jsstring_eqb_refl. cbn.
    unfold summary_view. cbn. rewrite Hv.
    repeat split. unfold patch_summary. now rewrite !length_map.
  - assert (Hv : truthy v = true).
    { apply (summarize_truthy w (newPost s)); [now apply trim_nonempty |].
      unfold result. now rewrite Hrun. }
    exists v. rewrite Hrun, H. cbn [fst snd].
    split; [reflexivity |]. split; [reflexivity |].
    rewrite state_after_app.
    change (state_after (EvFetch ?r :: EvSettled ?r' ?x' :: ?l) ?st)
      with (state_after l st).
    rewrite state_after_app, (state_after_console log _ Hlog).
    cbn. rewrite !jsstring_eqb_refl. cbn.
    unfold summary_view. cbn. rewrite Hv.
    repeat split. unfold patch_summary. now rewrite !length_map.
Qed.

Lemma settled_submission_shows_result_witness :
  exists v : jsval,
    result (rejecting network_error) (getAIAdvice (lit "Is my soil too acidic?")) =
      Returned v /\
    head (posts (state_after
                   (trace (rejecting network_error)
                          (handleSubmit (asking "Is my soil too acidic?")))
                   initial)) =
      Some (with_summary (new_post (rejecting network_error)
                                   (asking "Is my soil too acidic?")) v).
Proof.
  destruct (settled_submission_shows_result (rejecting network_error)
              (asking "Is my soil too acidic?") initial)
    as (v & Hv & _ & Hhead & _).
  - vm_compute. discriminate.
  - eexists. reflexivity.
  - intros _. eexists. reflexivity.
  - exists v. split; [exact Hv | exact Hhead].
Defined.

(** X11. A submission leaves the other posts alone: in any world, once
    the submission has finished or is suspended at a call, a post that was
    in the list and whose id is not the id of the new post is still there,
    unchanged, one place further down. *)
Theorem submission_keeps_other_posts
  (w : world) (s s0 : state) (i : nat) (p : Post) :
  trim (newPost s) <> [] ->
  posts s0 !! i = Some p ->
  id p <> Number_toString (date_now w) ->
  posts (state_after (trace w (handleSubmit s)) s0) !! S i = Some p.
Proof.
  intros Hnb Hp Hne. destruct (handleSubmit_touches w s Hnb) as (rest & Htr & Hrest).
  rewrite Htr, state_after_app.
  apply (touches_only_keeps _ rest _ (S i) p Hrest); [| exact Hne].
  destruct s0. exact Hp.
Qed.

Lemma submission_keeps_other_posts_witness :
  posts (state_after
           (trace (at_time 1700000000050 (rejecting network_error))
                  (handleSubmit (asking "Is my soil too acidic?")))
           (showing sample_post)) !! 1%nat = Some sample_post.
Proof.
  apply (submission_keeps_other_posts
           (at_time 1700000000050 (rejecting network_error))
           (asking "Is my soil too acidic?") (showing sample_post) 0 sample_post).
  - vm_compute. discriminate.
  - reflexivity.
  - vm_compute. discriminate.
Defined.

(** ** Listening, further *)

(** X12. When the speech proxy delivers audio, an object URL is made for
    its bytes and the audio element plays from it; the handler of the
    [ended] event revokes that URL and clears the flag, the handler of the
    [error] event only clears the flag, and nothing is revoked while
    [speakWithElevenLabs] itself runs. If [audio.play()] is rejected, no
    handler that runs at the end of a playback revokes the URL. *)
Theorem object_url_is_revoked_on_end
  (w : world) (text : jsval) (postId : jsstring) (resp : response) :
  net w (tts_request text) = Some (inr resp) ->
  ok resp = true ->
  let t := trace w (speakWithElevenLabs text postId) in
  let u := object_url w (blob_body resp) in
  In (EvDo (NewAudio u)) t /\
  audio_onended t = [RevokeObjectURL u; SetPlayingAudio None] /\
  audio_onerror t = [SetPlayingAudio None] /\
  (forall u', ~ In (EvDo (RevokeObjectURL u')) t) /\
  (audio_play w u <> None ->
   forall u', ~ In (RevokeObjectURL u') (when_playback_ends t)).
Proof.
  intros Hnet Hok t u. subst t u.
  unfold trace, when_playback_ends, speakWithElevenLabs.
  cbn. rewrite Hnet. cbn. rewrite Hok. cbn.
  destruct (audio_play w _) as [e |]; cbn.
  - destruct (speech_synthesis w); cbn;
      (split; [tauto |]); (split; [reflexivity |]); (split; [reflexivity |]);
      (split; [| intros _]); intros u' H; intuition discriminate.
  - (split; [tauto |]); (split; [reflexivity |]); (split; [reflexivity |]).
    split; [| congruence]. intros u' H; intuition discriminate.
Qed.

Lemma object_url_is_revoked_on_end_witness :
  audio_onended (trace (answering audio_response)
                       (speakWithElevenLabs (VStr (lit "Rain at last")) (lit "1"))) =
  [RevokeObjectURL (lit "blob:sample"); SetPlayingAudio None].
Proof.
  refine (proj1 (proj2 (object_url_is_revoked_on_end (answering audio_response)
                          (VStr (lit "Rain at last")) (lit "1") audio_response _ _))).
  - reflexivity.
  - reflexivity.
Defined.

(** The trace of a Listen action whose audio is delivered and plays. *)
Lemma speak_remote_trace (w : world) (text : jsval) (postId : jsstring)
  (resp : response) :
  net w (tts_request text) = Some (inr resp) ->
  ok resp = true ->
  audio_play w (object_url w (blob_body resp)) = None ->
  let u := object_url w (blob_body resp) in
  trace w (speakWithElevenLabs text postId) =
  [EvDo (SetPlayingAudio (Some postId));
   EvFetch (tts_request text); EvSettled (tts_request text) (inr resp);
   EvDo (NewAudio u);
   EvDo (AudioOnEnded [RevokeObjectURL u; SetPlayingAudio None]);
   EvDo (AudioOnError [SetPlayingAudio None]);
   EvPlay u None].
Proof.
  intros Hnet Hok Hplay u. subst u. unfold trace, speakWithElevenLabs.
  cbn. rewrite Hnet. cbn. rewrite Hok. cbn. rewrite Hplay. reflexivity.
Qed.

(** X13. The flag holds one post id, and the end of any playback clears
    it: when a second Listen action starts while the audio of a first one
    is playing, the flag moves to the second post, and the end of the first
    audio clears it although the second audio is still playing. *)
Theorem first_end_clears_second_flag
  (w1 w2 : world) (text1 text2 : jsval) (id1 id2 : jsstring) (s : state)
  (resp1 resp2 : response) :
  net w1 (tts_request text1) = Some (inr resp1) -> ok resp1 = true ->
  audio_play w1 (object_url w1 (blob_body resp1)) = None ->
  net w2 (tts_request text2) = Some (inr resp2) -> ok resp2 = true ->
  audio_play w2 (object_url w2 (blob_body resp2)) = None ->
  let t1 := trace w1 (speakWithElevenLabs text1 id1) in
  let t2 := trace w2 (speakWithElevenLabs text2 id2) in
  remote_playback t2 = true /\
  playingAudio (state_after (t1 ++ t2) s) = Some id2 /\
  playingAudio (apply_effects (audio_onended t1) (state_after (t1 ++ t2) s)) = None.
Proof.
  intros Hn1 Ho1 Hp1 Hn2 Ho2 Hp2 t1 t2. subst t1 t2.
  rewrite (speak_remote_trace w1 text1 id1 resp1 Hn1 Ho1 Hp1).
  rewrite (speak_remote_trace w2 text2 id2 resp2 Hn2 Ho2 Hp2).
  repeat split.
Qed.

Lemma first_end_clears_second_flag_witness :
  let t1 := trace (answering audio_response)
                  (speakWithElevenLabs (VStr (lit "Rain at last")) (lit "1")) in
  let t2 := trace (answering audio_response)
                  (speakWithElevenLabs (VStr (lit "Sowing maize")) (lit "2")) in
  playingAudio (apply_effects (audio_onended t1) (state_after (t1 ++ t2) initial)) = None.
Proof.
  refine (proj2 (proj2 (first_end_clears_second_flag
    (answering audio_response) (answering audio_response)
    (VStr (lit "Rain at last")) (VStr (lit "Sowing maize")) (lit "1") (lit "2")
    initial audio_response audio_response _ _ _ _ _ _))); reflexivity.
Defined.

(** X14. What a post gets as its summary is always truthy, whatever the
    proxies answer, so the summary box is shown and the Listen button
    speaks that summary and not the content of the post: this holds for
    the value of [summarizeWithGemini] on a non-empty text and for the value
    of [getAIAdvice]. A post without a summary is spoken by its content. *)
Theorem listen_speaks_the_result
  (w : world) (text : jsstring) (p : Post) (v : jsval) :
  text <> [] ->
  result w (summarizeWithGemini text) = Returned v \/
  result w (getAIAdvice text) = Returned v ->
  truthy v = true /\
  listen (with_summary p v) = speakWithElevenLabs v (id p) /\
  (summary p = None -> listen p = speakWithElevenLabs (VStr (content p)) (id p)).
Proof.
  intros Hne Hres.
  assert (Hv : truthy v = true).
  { destruct Hres as [Hres | Hres].
    - now apply (summarize_truthy w text).
    - now apply (advice_truthy w text). }
  split; [exact Hv |]. split.
  - unfold listen. cbn. unfold js_or. now rewrite Hv.
  - intros Hnone. unfold listen. now rewrite Hnone.
Qed.

Lemma listen_speaks_the_result_witness :
  listen (with_summary sample_post (VStr (lit "Rain at last"))) =
  speakWithElevenLabs (VStr (lit "Rain at last")) (id sample_post).
Proof.
  refine (proj1 (proj2 (listen_speaks_the_result (rejecting network_error)
                          (lit "Rain at last") sample_post
                          (VStr (lit "Rain at last")) _ _))).
  - vm_compute. discriminate.
  - left. reflexivity.
Defined.

(** ** Two submissions at once *)

(** A handler may run through any front part of what it still has to do. *)
Lemma interleaving_run (ts : list (list event)) (i : nat)
  (front rest t : list event) :
  ts !! i = Some (front ++ rest) ->
  interleaving (<[i := rest]> ts) t ->
  interleaving ts (front ++ t).
Proof.
  revert ts. induction front as [| ev front IH]; intros ts Hi Ht.
  - cbn in *. now rewrite (list_insert_id ts i rest Hi) in Ht.
  - cbn. apply (interleaving_cons ts i ev (front ++ rest)); [exact Hi |].
    apply IH.
    + apply list_lookup_insert_eq. eapply lookup_lt_Some. exact Hi.
    + now rewrite list_insert_insert_eq.
Qed.

(** The trace of an accepted submission whose summarization call settles,
    up to the moment the summary is applied. *)
Lemma handleSubmit_until_summary (w : world) (s : state) (x : exn + response) :
  trim (newPost s) <> [] ->
  net w (gemini_request (newPost s)) = Some x ->
  exists (log rest : list event) (v : jsval),
    trace w (handleSubmit s) =
      (submit_prefix w s ++ [EvFetch (gemini_request (newPost s))]) ++
      (EvSettled (gemini_request (newPost s)) x :: log ++
       [EvDo (PatchSummary (Number_toString (date_now w)) v);
        EvDo (SetSummarizing None)]) ++ rest /\
    forallb is_console_error log = true.
Proof.
  intros Hnb Hg. pose proof (handleSubmit_unfolded w s Hnb) as H. cbn zeta in H.
  rewrite Hg in H. destruct H as (log & v & _ & Hlog & H). unfold trace.
  destruct (post_type_eqb (postType s) question).
  - destruct (net w (dedalus_request (newPost s))) as [y |].
    + destruct H as (log' & v' & _ & _ & H). rewrite H.
      exists log, (EvFetch (dedalus_request (newPost s)) ::
                   EvSettled (dedalus_request (newPost s)) y :: log' ++
                   [EvDo (PatchSummary (Number_toString (date_now w)) v')]), v.
      split; [| exact Hlog]. cbn. rewrite <- ?app_assoc. reflexivity.
    + rewrite H. exists log, [EvFetch (dedalus_request (newPost s))], v.
      split; [| exact Hlog]. cbn. rewrite <- ?app_assoc. reflexivity.
  - rewrite H. exists log, [], v.
    split; [| exact Hlog]. cbn. rewrite <- ?app_assoc, ?app_nil_r. reflexivity.
Qed.

(** X15. The summarizing mark holds one post id. When a second post is
    submitted while the summarization of a first one is in flight, the
    spinner moves to the second post and the first shows nothing; when the
    summary of the first arrives the mark is cleared, so that the second
    post, whose summarization is still in flight, shows neither a spinner
    nor a summary. *)
Theorem earlier_summary_clears_later_spinner
  (w1 w2 : world) (s1 s2 s0 : state) (x : exn + response) :
  trim (newPost s1) <> [] ->
  trim (newPost s2) <> [] ->
  net w1 (gemini_request (newPost s1)) = Some x ->
  date_now w1 <> date_now w2 ->
  exists (log : list event) (v : jsval),
    let started :=
      (submit_prefix w1 s1 ++ [EvFetch (gemini_request (newPost s1))]) ++
      (submit_prefix w2 s2 ++ [EvFetch (gemini_request (newPost s2))]) in
    let t :=
      started ++
      EvSettled (gemini_request (newPost s1)) x :: log ++
      [EvDo (PatchSummary (Number_toString (date_now w1)) v);
       EvDo (SetSummarizing None)] in
    interleaving [trace w1 (handleSubmit s1); trace w2 (handleSubmit s2)] t /\
    summary_view (state_after started s0) (new_post w2 s2) = Spinner /\
    summary_view (state_after started s0) (new_post w1 s1) = NoCell /\
    head (posts (state_after t s0)) = Some (new_post w2 s2) /\
    summary_view (state_after t s0) (new_post w2 s2) = NoCell.
Proof.
  intros Hnb1 Hnb2 Hg Hclock.
  assert (Hids : Number_toString (date_now w1) <> Number_toString (date_now w2)).
  { intros Heq. now apply Number_toString_inj in Heq. }
  destruct (handleSubmit_until_summary w1 s1 x Hnb1 Hg) as (log & rest1 & v & Ht1 & Hlog).
  destruct (handleSubmit_starts w2 s2 Hnb2) as (rest2 & Ht2).
  exists log, v. cbn zeta. split; [| split; [| split; [| split]]].
  - rewrite Ht1, Ht2.
    set (A1 := submit_prefix w1 s1 ++ [EvFetch (gemini_request (newPost s1))]).
    set (S1 := EvSettled (gemini_request (newPost s1)) x :: log ++
               [EvDo (PatchSummary (Number_toString (date_now w1)) v);
                EvDo (SetSummarizing None)]).
    set (A2 := submit_prefix w2 s2 ++ [EvFetch (gemini_request (newPost s2))]).
    replace (submit_prefix w2 s2 ++ EvFetch (gemini_request (newPost s2)) :: rest2)
      with (A2 ++ rest2) by (unfold A2; now rewrite <- app_assoc).
    rewrite <- (app_assoc A1 A2 S1).
    apply (interleaving_run [A1 ++ S1 ++ rest1; A2 ++ rest2] 0%nat A1 (S1 ++ rest1));
      [reflexivity |]. cbn [insert list_insert].
    apply (interleaving_run [S1 ++ rest1; A2 ++ rest2] 1%nat A2 rest2);
      [reflexivity |]. cbn [insert list_insert].
    rewrite <- (app_nil_r S1) at 2.
    apply (interleaving_run [S1 ++ rest1; rest2] 0%nat S1 rest1); [reflexivity |].
    apply interleaving_nil.
  - rewrite state_after_app. unfold summary_view. cbn.
    now rewrite bool_decide_eq_true_2.
  - rewrite state_after_app. unfold summary_view. cbn.
    rewrite bool_decide_eq_false_2; [reflexivity |]. congruence.
  - rewrite !state_after_app. cbn [state_after fold_left apply_event].
    change (fold_left apply_event (log ++ ?l) ?st) with (state_after (log ++ l) st).
    rewrite state_after_app, (state_after_console log _ Hlog). cbn.
    now rewrite (proj2 (jsstring_eqb_false _ _) (not_eq_sym Hids)).
  - rewrite !state_after_app. cbn [state_after fold_left apply_event].
    change (fold_left apply_event (log ++ ?l) ?st) with (state_after (log ++ l) st).
    rewrite state_after_app, (state_after_console log _ Hlog). reflexivity.
Qed.

Lemma earlier_summary_clears_later_spinner_witness :
  let w1 := rejecting network_error in
  let w2 := at_time 1700000000050 sample_world in
  let s1 := typing "Rain at last" in
  let s2 := typing "Sowing maize" in
  exists (log : list event) (v : jsval),
    summary_view
      (state_after
         (((submit_prefix w1 s1 ++ [EvFetch (gemini_request (newPost s1))]) ++
           (submit_prefix w2 s2 ++ [EvFetch (gemini_request (newPost s2))])) ++
          EvSettled (gemini_request (newPost s1)) (inl network_error) :: log ++
          [EvDo (PatchSummary (Number_toString (date_now w1)) v);
           EvDo (SetSummarizing None)])
         initial)
      (new_post w2 s2) = NoCell.
Proof.
  intros w1 w2 s1 s2.
  destruct (earlier_summary_clears_later_spinner w1 w2 s1 s2 initial (inl network_error))
    as (log & v & _ & _ & _ & _ & Hview).
  - vm_compute. discriminate.
  - vm_compute. discriminate.
  - reflexivity.
  - vm_compute. discriminate.
  - exists log, v. exact Hview.
Defined.

(** ** What never happens to a post *)

(** X16. Nothing the component does removes, reorders or rewrites a post:
    after any sequence of events, a post that was at position [i] stands
    [n] places further down, [n] being the number of posts inserted since,
    with the id, author, content, timestamp and type it had; only its
    summary may have changed, and a summary that was there is not taken
    away. *)
Theorem posts_are_only_summarized
  (t : list event) (s : state) (i : nat) (p : Post) :
  posts s !! i = Some p ->
  exists p' : Post,
    posts (state_after t s) !! (length (inserted t) + i)%nat = Some p' /\
    id p' = id p /\ author p' = author p /\ content p' = content p /\
    timestamp p' = timestamp p /\ type p' = type p /\
    (is_Some (summary p) -> is_Some (summary p')).
Proof.
  revert s i p. induction t as [| ev t IH]; intros s i p Hp.
  - exists p. cbn. repeat split; auto.
  - change (state_after (ev :: t) s) with (state_after t (apply_event s ev)).
    destruct ev as [r | r x | src x | e];
      try (destruct (IH s i p Hp) as (p' & H); exists p'; exact H).
    destruct e as [| ? | ? | ? | ? | q | pid v | ? | ? ? | ? | ? | ? | ? | ? | ? | ?];
      try (match goal with
           | |- context [state_after t ?st] =>
               destruct (IH st i p Hp) as (p' & H); exists p'; exact H
           end).
    + (* an insertion *)
      destruct (IH (apply_effect (PrependPost q) s) (S i) p Hp) as (p' & Hl & H).
      exists p'. split; [| exact H].
      change (inserted (EvDo (PrependPost q) :: t)) with (q :: inserted t).
      cbn [length].
      now replace (S (length (inserted t)) + i)%nat
        with (length (inserted t) + S i)%nat by lia.
    + (* a summary applied *)
      assert (Hq : exists q, posts (apply_effect (PatchSummary pid v) s) !! i = Some q /\
                   id q = id p /\ author q = author p /\ content q = content p /\
                   timestamp q = timestamp p /\ type q = type p /\
                   (is_Some (summary p) -> is_Some (summary q))).
      { cbn. unfold patch_summary.
        change (@List.map Post Post) with (@fmap list _ Post Post).
        rewrite list_lookup_fmap, Hp. cbn.
        destruct (jsstring_eqb (id p) pid); eexists; repeat split; eauto. }
      destruct Hq as (q & Hq & Hid & Hau & Hco & Hts & Hty & Hsu).
      destruct (IH _ i q Hq) as (p' & Hl & Hid' & Hau' & Hco' & Hts' & Hty' & Hsu').
      exists p'. split; [exact Hl |].
      repeat split; try congruence. intros H. now apply Hsu', Hsu.
Qed.

Lemma posts_are_only_summarized_witness :
  exists p' : Post,
    posts (state_after
             (trace (at_time 1700000000050 (rejecting network_error))
                    (handleSubmit (asking "Is my soil too acidic?")))
             (showing sample_post)) !! 1%nat = Some p' /\
    content p' = content sample_post.
Proof.
  destruct (posts_are_only_summarized
              (trace (at_time 1700000000050 (rejecting network_error))
                     (handleSubmit (asking "Is my soil too acidic?")))
              (showing sample_post) 0 sample_post eq_refl)
    as (p' & Hl & _ & _ & Hc & _).
  exists p'. split; [exact Hl | exact Hc].
Defined.
